(** * The freestanding VGA text console and the kernel entry of FUSE

    A shallow embedding of [Examples/os/x86_64/vga.c] and
    [Examples/os/x86_64/kernel.c], with the properties of the console
    driver (cursor discipline, cell writes, decimal rendering) and of the
    boot sequence stated over it.

    Conventions.
    - C [int] is a 32-bit and [int64_t] a 64-bit two's-complement integer,
      held in [Z] with the wrap-around written out ([wrap32], [wrap64]).
    - [char] is held by its bit pattern, as an [ascii].
    - The memory behind the pointer [VGA] is a finite map from the cell
      offset (the index of [VGA[...]], any [Z]) to the 16-bit cell value;
      the display surface proper is the offsets [0 .. WIDTH*HEIGHT-1]. *)

From Stdlib Require Import ZArith Ascii String List Lia Bool.
From stdpp Require Import base option list gmap.
Import ListNotations.

Local Open Scope Z_scope.

(** ** Machine integers *)

Definition INT_MIN : Z := - 2 ^ 31.
Definition INT_MAX : Z := 2 ^ 31 - 1.
Definition INT64_MIN : Z := - 2 ^ 63.
Definition INT64_MAX : Z := 2 ^ 63 - 1.

(** The value of a 32-bit (64-bit) signed integer after an operation whose
    mathematical result is [z]. *)
Definition wrap32 (z : Z) : Z := (z + 2 ^ 31) mod 2 ^ 32 - 2 ^ 31.
Definition wrap64 (z : Z) : Z := (z + 2 ^ 63) mod 2 ^ 64 - 2 ^ 63.

Definition is_int (z : Z) : Prop := INT_MIN <= z <= INT_MAX.
Definition is_int64 (z : Z) : Prop := INT64_MIN <= z <= INT64_MAX.

#[global] Instance is_int_dec (z : Z) : Decision (is_int z).
Proof. unfold is_int. apply _. Defined.

#[global] Instance is_int64_dec (z : Z) : Decision (is_int64 z).
Proof. unfold is_int64. apply _. Defined.

(** ** Characters *)

(** ['\n'] and the string terminator. *)
Definition newline : ascii := "010"%char.
Definition NUL : ascii := "000"%char.

(** [(uint8_t)c] *)
Definition uint8_of_char (c : ascii) : Z := Z.of_N (N_of_ascii c).

(** Conversion of an integer to [char], as in [tmp[n] = '0' + d]. *)
Definition char_of_Z (z : Z) : ascii := ascii_of_N (Z.to_N (z mod 256)).

(** ** vga.c: the console state *)

Definition WIDTH : Z := 80.
Definition HEIGHT : Z := 25.
Definition color : Z := 15.

Record vga_state : Type := mkVga {
  row : Z;
  col : Z;
  VGA : gmap Z Z
}.

(** [((uint16_t)color << 8) | (uint8_t)c], stored into a [uint16_t]. *)
Definition glyph (c : ascii) : Z :=
  Z.lor (Z.shiftl color 8) (uint8_of_char c) mod 2 ^ 16.

(** The index expression [row*WIDTH + col], computed in [int]. *)
Definition cell_index (r c : Z) : Z := wrap32 (wrap32 (r * WIDTH) + c).

(** The row that a non-newline [putc] writes into: line 11. *)
Definition wrap_row (r : Z) : Z := if HEIGHT <=? r then 0 else r.

(** The cell offset that a non-newline [putc] stores into: lines 11-12. *)
Definition putc_index (s : vga_state) : Z :=
  cell_index (wrap_row (row s)) (col s).

Definition putc (c : ascii) (s : vga_state) : vga_state :=
  if Ascii.eqb c newline then
    {| row := wrap32 (row s + 1); col := 0; VGA := VGA s |}
  else
    let r := wrap_row (row s) in
    let mem := <[ cell_index r (col s) := glyph c ]> (VGA s) in
    let c1 := wrap32 (col s + 1) in
    if WIDTH <=? c1
    then {| row := wrap32 (r + 1); col := 0; VGA := mem |}
    else {| row := r; col := c1; VGA := mem |}.

Definition vga_init (s : vga_state) : vga_state :=
  {| row := 0; col := 0; VGA := VGA s |}.

(** A [const char*] argument is given by the bytes found from the pointer
    on; the byte after the last element of the list is a terminator, so
    every list stands for readable, terminated memory.  The loop
    [while ( *s ) putc( *s++ )] stops at the first zero byte. *)
Fixpoint vga_write_string (s : list ascii) (st : vga_state) : vga_state :=
  match s with
  | [] => st
  | c :: s' =>
      if Ascii.eqb c NUL then st else vga_write_string s' (putc c st)
  end.

(** A run of [putc] calls, one per element, left to right. *)
Definition emit (cs : list ascii) (st : vga_state) : vga_state :=
  fold_left (fun s c => putc c s) cs st.

(** *** vga_write_int *)

(** ['0' + (v%10)], stored into a [char]; C's [%] truncates, as [Z.rem]. *)
Definition digit_char (v : Z) : ascii := char_of_Z (48 + Z.rem v 10).

(** The loop [while (v>0 && n<31) { tmp[n++] = '0' + (v%10); v/=10; }].
    [tmp] is the 32-byte stack buffer, updated in place at index [n]; the
    loop returns the final [v], [n] and buffer.  [n] only counts up from 0
    to at most 31, so it is a [nat]; the recursion is on a bound that the
    guard [n<31] makes sufficient, see [digit_loop_exits_by_guard]. *)
Fixpoint digit_loop (bound : nat) (v : Z) (n : nat) (tmp : list ascii)
  : Z * nat * list ascii :=
  match bound with
  | O => (v, n, tmp)
  | S bound' =>
      if (0 <? v) && (n <? 31)%nat
      then digit_loop bound' (Z.quot v 10) (S n) (<[ n := digit_char v ]> tmp)
      else (v, n, tmp)
  end.

(** The loop [for (i=n-1; i>=0; i--) putc(tmp[i])]. *)
Fixpoint emit_backwards (tmp : list ascii) (n : nat) (st : vga_state)
  : vga_state :=
  match n with
  | O => st
  | S i => emit_backwards tmp i (putc (default NUL (tmp !! i)) st)
  end.

(** [vga_write_int(v)], entered with the uninitialised buffer [tmp] holding
    the bytes [tmp0]. *)
Definition vga_write_int (tmp0 : list ascii) (v : Z) (st : vga_state)
  : vga_state :=
  if v =? 0 then putc "0"%char st
  else
    let '(v1, st1) :=
      if v <? 0 then (wrap64 (- v), putc "-"%char st) else (v, st) in
    let '(_, n, tmp) := digit_loop 31 v1 0%nat tmp0 in
    emit_backwards tmp n st1.

(** ** Sequences of driver calls *)

Inductive console_call : Type :=
| Initialize
| WriteCharacter (c : ascii)
| WriteString (s : list ascii)
| WriteInteger (v : Z) (tmp0 : list ascii).

Definition do_call (o : console_call) (st : vga_state) : vga_state :=
  match o with
  | Initialize => vga_init st
  | WriteCharacter c => putc c st
  | WriteString s => vga_write_string s st
  | WriteInteger v tmp0 => vga_write_int tmp0 v st
  end.

Definition run (os : list console_call) (st : vga_state) : vga_state :=
  fold_left (fun s o => do_call o s) os st.

(** A state with nothing stored behind [VGA] yet. *)
Definition blank : vga_state := {| row := 0; col := 0; VGA := ∅ |}.

Definition scratch : list ascii := replicate 32 NUL.

Definition cstr (s : string) : list ascii := list_ascii_of_string s.

(** ** kernel.c: the kernel entry *)

(** [gen_logic.h] is generated and not part of the sources: the functions it
    declares are an interface that the kernel is linked against. *)
Class GenLogic : Type := {
  banner : list ascii;          (* the bytes behind the pointer [banner()] *)
  meaning : Z;
  add : Z -> Z -> Z;
  max2 : Z -> Z -> Z;
  demo_expr : Z
}.

Module Kernel.

(** The control points of [kmain], named by source line; [Lret] is the
    closing brace, where [kmain] would hand control back to its caller. *)
Inductive kpc : Type :=
| L9 | L10 | L12 | L13 | L14 | L15 | L16
| L18 | L19 | L20 | L21 | L22 | L23 | Lret.

Inductive logic_call : Type :=
| CallBanner
| CallMeaning
| CallAdd (x y : Z)
| CallMax2 (x y : Z)
| CallDemoExpr.

(** What a step of [kmain] does that is visible from outside. *)
Inductive kevent : Type :=
| EvConsole (o : console_call)
| EvCall (f : logic_call)
| EvHlt.

(** Control point, console, and the locals [b], [m], [z], [mx], [d]. *)
Record kstate : Type := mkK {
  pc : kpc;
  con : vga_state;
  b : list ascii;
  m : Z;
  z : Z;
  mx : Z;
  d : Z
}.

Definition kentry (st : vga_state) (b0 : list ascii) (m0 z0 mx0 d0 : Z)
  : kstate :=
  {| pc := L9; con := st; b := b0; m := m0; z := z0; mx := mx0; d := d0 |}.

(** Run console calls, then continue at [next]. *)
Definition console (os : list console_call) (next : kpc) (k : kstate)
  : list kevent * kstate :=
  (map EvConsole os,
   {| pc := next; con := run os (con k);
      b := b k; m := m k; z := z k; mx := mx k; d := d k |}).

(** [kputs(s)] *)
Definition kputs (s : list ascii) : list console_call :=
  [ WriteString s; WriteString [newline] ].

Section WithLogic.
Context `{GenLogic}.
(** The bytes in the stack slot of [tmp] when [vga_write_int] is entered. *)
Variable tmp0 : list ascii.

(** One source line of [kmain]; [None] once [kmain] has returned. *)
Definition kstep (k : kstate) : option (list kevent * kstate) :=
  match pc k with
  | L9 => Some (console [ Initialize ] L10 k)
  | L10 => Some (console (kputs (cstr "FUSE kernel online")) L12 k)
  | L12 => Some ([ EvCall CallBanner ],
             {| pc := L13; con := con k;
                b := banner; m := m k; z := z k; mx := mx k; d := d k |})
  | L13 => Some ([ EvCall CallMeaning ],
             {| pc := L14; con := con k;
                b := b k; m := meaning; z := z k; mx := mx k; d := d k |})
  | L14 => Some ([ EvCall (CallAdd 20 22) ],
             {| pc := L15; con := con k;
                b := b k; m := m k; z := add 20 22; mx := mx k; d := d k |})
  | L15 => Some ([ EvCall (CallMax2 11 17) ],
             {| pc := L16; con := con k;
                b := b k; m := m k; z := z k; mx := max2 11 17; d := d k |})
  | L16 => Some ([ EvCall CallDemoExpr ],
             {| pc := L18; con := con k;
                b := b k; m := m k; z := z k; mx := mx k; d := demo_expr |})
  | L18 => Some (console [ WriteString (cstr "banner: ");
                           WriteString (b k);
                           WriteString [newline] ] L19 k)
  | L19 => Some (console [ WriteString (cstr "meaning: ");
                           WriteInteger (m k) tmp0;
                           WriteString [newline] ] L20 k)
  | L20 => Some (console [ WriteString (cstr "add(20,22): ");
                           WriteInteger (z k) tmp0;
                           WriteString [newline] ] L21 k)
  | L21 => Some (console [ WriteString (cstr "max2(11,17): ");
                           WriteInteger (mx k) tmp0;
                           WriteString [newline] ] L22 k)
  | L22 => Some (console [ WriteString (cstr "demo_expr: ");
                           WriteInteger (d k) tmp0;
                           WriteString [newline] ] L23 k)
  | L23 => Some ([ EvHlt ], k)
  | Lret => None
  end.

(** [n] steps, with the events in order. *)
Fixpoint krun (n : nat) (k : kstate) : option (list kevent * kstate) :=
  match n with
  | O => Some ([], k)
  | S n' =>
      match kstep k with
      | None => None
      | Some (ev, k') =>
          match krun n' k' with
          | None => None
          | Some (evs, k'') => Some (ev ++ evs, k'')
          end
      end
  end.

(** A line "label value" of the boot screen, for a string and for an
    integer result. *)
Definition labeled_string (label : string) (s : list ascii)
  : list console_call :=
  [ WriteString (cstr label); WriteString s; WriteString [ newline ] ].

Definition labeled_integer (label : string) (v : Z) : list console_call :=
  [ WriteString (cstr label); WriteInteger v tmp0;
    WriteString [ newline ] ].

(** What [kmain] is to do before it idles, in order. *)
Definition boot_events : list kevent :=
  [ EvConsole Initialize ]
  ++ map EvConsole
       [ WriteString (cstr "FUSE kernel online"); WriteString [ newline ] ]
  ++ map EvCall
       [ CallBanner; CallMeaning; CallAdd 20 22;
         CallMax2 11 17; CallDemoExpr ]
  ++ map EvConsole
       (labeled_string "banner: " banner
        ++ labeled_integer "meaning: " meaning
        ++ labeled_integer "add(20,22): " (add 20 22)
        ++ labeled_integer "max2(11,17): " (max2 11 17)
        ++ labeled_integer "demo_expr: " demo_expr).

End WithLogic.

(** The calls into the generated logic among some events. *)
Fixpoint logic_calls (evs : list kevent) : list logic_call :=
  match evs with
  | [] => []
  | EvCall f :: evs' => f :: logic_calls evs'
  | _ :: evs' => logic_calls evs'
  end.

(** The console calls among some events. *)
Fixpoint console_calls (evs : list kevent) : list console_call :=
  match evs with
  | [] => []
  | EvConsole o :: evs' => o :: console_calls evs'
  | _ :: evs' => console_calls evs'
  end.

End Kernel.

(** ** Decimal notation, as the specification words it *)

Definition is_digit (c : ascii) : bool :=
  (48 <=? uint8_of_char c) && (uint8_of_char c <=? 57).

(** The number that digits, most significant first, denote. *)
Definition digits_value (ds : list ascii) : Z :=
  fold_left (fun acc c => acc * 10 + (uint8_of_char c - 48)) ds 0.

(** [ds] is the decimal representation of [v]: digits only, most
    significant first, denoting [v], at least one digit, and no leading
    zero except for the single digit of 0. *)
Definition decimal_of (v : Z) (ds : list ascii) : bool :=
  forallb is_digit ds
  && (digits_value ds =? v)
  && match ds with
     | [] => false
     | [ _ ] => true
     | c :: _ => negb (Ascii.eqb c "0"%char)
     end.

(** The cursor is inside the grid: what [C2] asks of every state. *)
Definition cursor_in_grid (s : vga_state) : Prop :=
  (0 <= col s < WIDTH) ∧ (0 <= row s < HEIGHT).

(** What does hold of every state the driver reaches. *)
Definition cursor_ok (s : vga_state) : Prop :=
  is_int (row s) ∧ (0 <= col s < WIDTH).

(** ** Auxiliary definitions *)

(** The characters of [s] before its first zero byte. *)
Fixpoint until_NUL (s : list ascii) : list ascii :=
  match s with
  | [] => []
  | c :: s' => if Ascii.eqb c NUL then [] else c :: until_NUL s'
  end.

(** The digits that [digit_loop] stores, in the order of the stores (least
    significant first). *)
Fixpoint stored_digits (bound : nat) (v : Z) (n : nat) : list ascii :=
  match bound with
  | O => []
  | S bound' =>
      if (0 <? v) && (n <? 31)%nat
      then digit_char v :: stored_digits bound' (Z.quot v 10) (S n)
      else []
  end.

(** The head of a reversed, non-empty list is the last element. *)
Definition leading (ds : list ascii) : option ascii := head (rev ds).

(** The claim [C6] at one value and one entry state. *)
Definition renders_minus_then_digits
    (tmp0 : list ascii) (v : Z) (st : vga_state) : Prop :=
  ∃ ds, decimal_of (- v) ds = true
        ∧ vga_write_int tmp0 v st = emit ("-"%char :: ds) st.

(** The characters that [vga_write_int(v)] passes to [putc], in order
    (at [INT64_MIN] with the negation taken modulo 2^64). *)
Definition int_chars (v : Z) : list ascii :=
  if v =? 0 then [ "0"%char ]
  else if v <? 0 then "-"%char :: rev (stored_digits 31 (wrap64 (- v)) 0)
  else rev (stored_digits 31 v 0).

(** The characters that a driver call passes to [putc], in order. *)
Definition call_chars (o : console_call) : list ascii :=
  match o with
  | Initialize => []
  | WriteCharacter c => [ c ]
  | WriteString s => until_NUL s
  | WriteInteger v _ => int_chars v
  end.

(** A call that writes (not [vga_init]), with a 32-byte buffer where it
    has one. *)
Definition is_write (o : console_call) : bool :=
  match o with
  | Initialize => false
  | WriteInteger _ tmp0 => (length tmp0 =? 32)%nat
  | _ => true
  end.

(** A writing call whose integer, where it has one, is an [int64_t] other
    than [INT64_MIN], the one value whose negation is not an [int64_t]. *)
Definition is_defined_write (o : console_call) : bool :=
  match o with
  | Initialize => false
  | WriteInteger v tmp0 =>
      (length tmp0 =? 32)%nat && (INT64_MIN <? v) && (v <=? INT64_MAX)
  | _ => true
  end.

(** Lines of text, each followed by a newline, as one run of characters. *)
Definition lines_text (ls : list (list ascii)) : list ascii :=
  concat (map (λ l, l ++ [ newline ]) ls).

(** A line without newline that fits into one row with room to spare, so
    that writing it never moves to the next row by itself. *)
Definition short_line (l : list ascii) : Prop :=
  Forall (λ c, c ≠ newline) l ∧ Z.of_nat (length l) < WIDTH.

(** The text of the six lines that [kmain] writes, without the newlines. *)
Definition boot_lines `{GenLogic} : list (list ascii) :=
  [ cstr "FUSE kernel online";
    cstr "banner: " ++ until_NUL banner;
    cstr "meaning: " ++ int_chars meaning;
    cstr "add(20,22): " ++ int_chars (add 20 22);
    cstr "max2(11,17): " ++ int_chars (max2 11 17);
    cstr "demo_expr: " ++ int_chars demo_expr ].

(** An implementation of the generated interface, to run [kmain] on. *)
Definition sample_logic : GenLogic :=
  {| banner := cstr "FUSE";
     meaning := 42;
     add := Z.add;
     max2 := Z.max;
     demo_expr := -7 |}.

(** * Properties *)

(** ** Machine integers *)

Lemma wrap32_id (z : Z) : is_int z → wrap32 z = z.
Proof.
  unfold is_int, INT_MIN, INT_MAX, wrap32. intros Hz.
  rewrite Z.mod_small; lia.
Qed.

Lemma wrap32_is_int (z : Z) : is_int (wrap32 z).
Proof.
  unfold is_int, INT_MIN, INT_MAX, wrap32.
  pose proof (Z.mod_pos_bound (z + 2 ^ 31) (2 ^ 32)). lia.
Qed.

Lemma wrap32_add_l (x y : Z) : wrap32 (wrap32 x + y) = wrap32 (x + y).
Proof.
  unfold wrap32. f_equal.
  replace ((x + 2 ^ 31) mod 2 ^ 32 - 2 ^ 31 + y + 2 ^ 31)
    with ((x + 2 ^ 31) mod 2 ^ 32 + y) by lia.
  replace (x + y + 2 ^ 31) with ((x + 2 ^ 31) + y) by lia.
  apply Zplus_mod_idemp_l.
Qed.

Lemma wrap64_id (z : Z) : is_int64 z → wrap64 z = z.
Proof.
  unfold is_int64, INT64_MIN, INT64_MAX, wrap64. intros Hz.
  rewrite Z.mod_small; lia.
Qed.

(** ** Characters *)

Lemma ascii_eqb_false (c c' : ascii) : c ≠ c' → Ascii.eqb c c' = false.
Proof. intros Hne. apply Ascii.eqb_neq. exact Hne. Qed.

Lemma uint8_of_char_of_Z (z : Z) :
  0 <= z < 256 → uint8_of_char (char_of_Z z) = z.
Proof.
  intros Hz. unfold uint8_of_char, char_of_Z.
  rewrite Z.mod_small by lia.
  rewrite N_ascii_embedding by lia. lia.
Qed.

(** ** putc *)

Lemma wrap_row_lt (r : Z) : wrap_row r < HEIGHT.
Proof. unfold wrap_row, HEIGHT. destruct (Z.leb_spec 25 r); lia. Qed.

Lemma wrap_row_is_int (r : Z) : is_int r → is_int (wrap_row r).
Proof.
  unfold wrap_row, HEIGHT, is_int, INT_MIN, INT_MAX.
  destruct (Z.leb_spec 25 r); lia.
Qed.

Lemma cell_index_exact (r c : Z) :
  0 <= r < HEIGHT → 0 <= c < WIDTH → cell_index r c = r * WIDTH + c.
Proof.
  unfold cell_index, HEIGHT, WIDTH. intros Hr Hc.
  rewrite (wrap32_id (r * 80)) by (unfold is_int, INT_MIN, INT_MAX; lia).
  apply wrap32_id. unfold is_int, INT_MIN, INT_MAX. lia.
Qed.

(** Without overflow of [row], the store of [putc] is inside the surface. *)
Lemma putc_index_in_bounds (s : vga_state) :
  0 <= row s → 0 <= col s < WIDTH → 0 <= putc_index s < WIDTH * HEIGHT.
Proof.
  intros Hr Hc. unfold putc_index.
  pose proof (wrap_row_lt (row s)) as Hlt.
  assert (0 <= wrap_row (row s)) as Hge.
  { unfold wrap_row. destruct (HEIGHT <=? row s); lia. }
  rewrite cell_index_exact by lia.
  unfold WIDTH, HEIGHT in *. lia.
Qed.

Lemma putc_newline_eq (s : vga_state) :
  putc newline s = {| row := wrap32 (row s + 1); col := 0; VGA := VGA s |}.
Proof. reflexivity. Qed.

Lemma putc_other_eq (c : ascii) (s : vga_state) :
  c ≠ newline → 0 <= col s < WIDTH →
  putc c s =
    {| row := if col s + 1 =? WIDTH
              then wrap32 (wrap_row (row s) + 1) else wrap_row (row s);
       col := if col s + 1 =? WIDTH then 0 else col s + 1;
       VGA := <[ cell_index (wrap_row (row s)) (col s) := glyph c ]> (VGA s) |}.
Proof.
  intros Hc Hcol. unfold putc. rewrite (ascii_eqb_false _ _ Hc). cbv zeta.
  rewrite (wrap32_id (col s + 1))
    by (unfold is_int, INT_MIN, INT_MAX, WIDTH in *; lia).
  unfold WIDTH in *.
  destruct (Z.leb_spec 80 (col s + 1)), (Z.eqb_spec (col s + 1) 80);
    try lia; reflexivity.
Qed.

Lemma putc_cursor_ok (c : ascii) (s : vga_state) :
  cursor_ok s → cursor_ok (putc c s).
Proof.
  intros [Hr Hc]. destruct (ascii_dec c newline) as [-> | Hne].
  - rewrite putc_newline_eq. split; cbn.
    + apply wrap32_is_int.
    + unfold WIDTH. lia.
  - rewrite putc_other_eq by assumption. split; cbn.
    + destruct (col s + 1 =? WIDTH).
      * apply wrap32_is_int.
      * apply wrap_row_is_int, Hr.
    + unfold WIDTH in *. destruct (Z.eqb_spec (col s + 1) 80); lia.
Qed.

(** ** Runs of putc *)

Lemma emit_app (cs cs' : list ascii) (st : vga_state) :
  emit (cs ++ cs') st = emit cs' (emit cs st).
Proof. unfold emit. apply fold_left_app. Qed.

Lemma emit_cons (c : ascii) (cs : list ascii) (st : vga_state) :
  emit (c :: cs) st = emit cs (putc c st).
Proof. reflexivity. Qed.

Lemma emit_cursor_ok (cs : list ascii) (st : vga_state) :
  cursor_ok st → cursor_ok (emit cs st).
Proof.
  revert st. induction cs as [| c cs IH]; intros st Hst; [exact Hst |].
  rewrite emit_cons. apply IH, putc_cursor_ok, Hst.
Qed.

Lemma vga_write_string_emit (s : list ascii) (st : vga_state) :
  vga_write_string s st = emit (until_NUL s) st.
Proof.
  revert st. induction s as [| c s IH]; intros st; [reflexivity |].
  cbn [vga_write_string until_NUL]. destruct (Ascii.eqb c NUL).
  - reflexivity.
  - rewrite emit_cons. apply IH.
Qed.

Lemma until_NUL_terminated (cs rest : list ascii) :
  Forall (λ c, c ≠ NUL) cs → until_NUL (cs ++ NUL :: rest) = cs.
Proof.
  induction 1 as [| c cs Hc _ IH]; [reflexivity |].
  cbn. rewrite (ascii_eqb_false _ _ Hc). f_equal. exact IH.
Qed.

Lemma until_NUL_whole (cs : list ascii) :
  Forall (λ c, c ≠ NUL) cs → until_NUL cs = cs.
Proof.
  induction 1 as [| c cs Hc _ IH]; [reflexivity |].
  cbn. rewrite (ascii_eqb_false _ _ Hc). f_equal. exact IH.
Qed.

(** [C7]: for a string [cs] without a zero byte, followed by its terminator
    (and whatever [rest] lies behind it in memory), [vga_write_string] is,
    from every state, the run of [putc] over the characters of [cs] from
    left to right and nothing after the terminator; with the end of the
    list standing for the terminator the same holds of [cs] itself, and
    writing "AB\nC" is [putc] of 'A', 'B', newline, 'C' in this order. *)
Theorem vga_write_string_is_putc_per_character
    (cs rest : list ascii) (st : vga_state) :
  Forall (λ c, c ≠ NUL) cs →
  vga_write_string (cs ++ NUL :: rest) st = emit cs st
  ∧ vga_write_string cs st = emit cs st
  ∧ vga_write_string [ "A"; "B"; newline; "C" ]%char st
    = putc "C" (putc newline (putc "B" (putc "A" st))).
Proof.
  intros Hcs. rewrite !vga_write_string_emit.
  rewrite until_NUL_terminated, until_NUL_whole by exact Hcs.
  repeat split.
Qed.

Lemma vga_write_string_is_putc_per_character_witness :
  Forall (λ c, c ≠ NUL) [ "o"; "k" ]%char
  ∧ vga_write_string ([ "o"; "k" ]%char ++ NUL :: [ "x" ]%char) blank
    = putc "k" (putc "o" blank).
Proof.
  assert (Forall (λ c, c ≠ NUL) [ "o"; "k" ]%char) as Hok
    by (repeat constructor; discriminate).
  split; [exact Hok |].
  exact (proj1 (vga_write_string_is_putc_per_character
                  [ "o"; "k" ]%char [ "x" ]%char blank Hok)).
Defined.

(** ** vga_init *)

(** [C8]: [vga_init] puts the cursor at (0,0) and leaves every cell as it
    was; a second call gives the same state again, the cells still being
    those found before the first call. *)
Theorem vga_init_resets_cursor_only (s : vga_state) :
  row (vga_init s) = 0 ∧ col (vga_init s) = 0
  ∧ VGA (vga_init s) = VGA s
  ∧ vga_init (vga_init s) = vga_init s
  ∧ VGA (vga_init (vga_init s)) = VGA (vga_init s).
Proof. repeat split. Qed.

(** ** The two branches of putc *)

(** Below [INT_MAX], [putc] of a newline moves the cursor to (row+1, 0)
    whatever the column was, and stores nothing. *)
Lemma putc_newline_next_row (s : vga_state) :
  is_int (row s) → row s < INT_MAX →
  putc newline s = {| row := row s + 1; col := 0; VGA := VGA s |}.
Proof.
  intros Hr Hmax. rewrite putc_newline_eq. f_equal.
  apply wrap32_id. unfold is_int, INT_MIN, INT_MAX in *. lia.
Qed.

Lemma putc_newline_next_row_witness :
  putc newline {| row := 3; col := 17; VGA := {[ 257 := 3905 ]} |}
  = {| row := 4; col := 0; VGA := {[ 257 := 3905 ]} |}.
Proof.
  assert (is_int 3) as Hint by (unfold is_int, INT_MIN, INT_MAX; lia).
  assert (3 < INT_MAX) as Hmax by (unfold INT_MAX; lia).
  exact (putc_newline_next_row
           {| row := 3; col := 17; VGA := {[ 257 := 3905 ]} |} Hint Hmax).
Defined.

(** [C3]: for a character other than newline, [putc] takes row 0 in place
    of a row at or beyond [HEIGHT] (the column staying as it is), stores
    the glyph of [c] into the cell of that row and the current column, and
    moves one column to the right, going to column 0 of the next row
    exactly when the column would become [WIDTH]. *)
Theorem putc_glyph_advances_column (c : ascii) (s : vga_state) :
  c ≠ newline → is_int (row s) → 0 <= col s < WIDTH →
  let r := if HEIGHT <=? row s then 0 else row s in
  putc c s =
    {| row := if col s + 1 =? WIDTH then r + 1 else r;
       col := if col s + 1 =? WIDTH then 0 else col s + 1;
       VGA := <[ cell_index r (col s) := glyph c ]> (VGA s) |}
  ∧ (0 <= row s → cell_index r (col s) = r * WIDTH + col s)
  ∧ glyph c = 3840 + uint8_of_char c.
Proof.
  intros Hc Hr Hcol r. split; [| split].
  - rewrite putc_other_eq by assumption. fold (wrap_row (row s)). fold r.
    destruct (col s + 1 =? WIDTH); [| reflexivity].
    f_equal. apply wrap32_id.
    pose proof (wrap_row_lt (row s)). pose proof (wrap_row_is_int _ Hr).
    unfold is_int, INT_MIN, INT_MAX, HEIGHT in *.
    change (wrap_row (row s)) with r in *. lia.
  - intros H0. apply cell_index_exact; [| exact Hcol].
    pose proof (wrap_row_lt (row s)). unfold wrap_row in *. fold r in H.
    subst r. destruct (HEIGHT <=? row s); lia.
  - unfold glyph, uint8_of_char.
    destruct c as [[] [] [] [] [] [] [] []]; reflexivity.
Qed.

Lemma putc_glyph_advances_column_witness :
  putc "A" {| row := 25; col := 79; VGA := ∅ |}
  = {| row := 1; col := 0; VGA := {[ 79 := 3905 ]} |}.
Proof.
  destruct (putc_glyph_advances_column "A"
              {| row := 25; col := 79; VGA := ∅ |}) as [H _].
  - discriminate.
  - unfold is_int, INT_MIN, INT_MAX; cbn; lia.
  - unfold WIDTH; cbn; lia.
  - rewrite H. reflexivity.
Defined.

(** ** vga_write_int: the digit buffer *)

(** The recursion bound never ends the loop: with the [31 - n] rounds that
    are left at [n], the loop stops because its own guard fails. *)
Lemma digit_loop_exits_by_guard (bound : nat) :
  ∀ (v : Z) (n : nat) (tmp : list ascii),
    (n + bound = 31)%nat →
    let '(v', n', _) := digit_loop bound v n tmp in
    (0 <? v') && (n' <? 31)%nat = false.
Proof.
  induction bound as [| bound IH]; intros v n tmp Hn; cbn [digit_loop].
  - replace n with 31%nat by lia. apply andb_false_r.
  - destruct ((0 <? v) && (n <? 31)%nat) eqn:Hg; [| exact Hg].
    apply IH. lia.
Qed.

Lemma digit_loop_buffer (bound : nat) :
  ∀ (v : Z) (n : nat) (tmp : list ascii),
    (n + bound ≤ length tmp)%nat →
    ∃ v' tmp',
      digit_loop bound v n tmp
        = (v', (n + length (stored_digits bound v n))%nat, tmp')
      ∧ length tmp' = length tmp
      ∧ (∀ i, (i < n)%nat → tmp' !! i = tmp !! i)
      ∧ (∀ i, (i < length (stored_digits bound v n))%nat →
              tmp' !! (n + i)%nat = stored_digits bound v n !! i).
Proof.
  induction bound as [| bound IH]; intros v n tmp Hlen;
    cbn [digit_loop stored_digits].
  - exists v, tmp. cbn. rewrite Nat.add_0_r. repeat split; intros; lia.
  - destruct ((0 <? v) && (n <? 31)%nat).
    + destruct (IH (Z.quot v 10) (S n) (<[ n := digit_char v ]> tmp))
        as (v' & tmp' & Heq & Hl & Hlow & Hnew).
      { rewrite length_insert. lia. }
      exists v', tmp'. rewrite length_insert in Hl.
      cbn [length]. rewrite Heq. repeat split.
      * do 2 f_equal. lia.
      * exact Hl.
      * intros i Hi. rewrite Hlow by lia. apply list_lookup_insert_ne. lia.
      * intros [| i] Hi.
        -- rewrite Nat.add_0_r, Hlow by lia. cbn.
           apply list_lookup_insert_eq. lia.
        -- replace (n + S i)%nat with (S n + i)%nat by lia.
           cbn. apply Hnew. cbn in Hi. lia.
    + exists v, tmp. cbn. rewrite Nat.add_0_r. repeat split; intros; lia.
Qed.

Lemma emit_backwards_rev (tmp ds : list ascii) (k : nat) :
  ∀ st, (k ≤ length ds)%nat → (∀ i, (i < k)%nat → tmp !! i = ds !! i) →
        emit_backwards tmp k st = emit (rev (take k ds)) st.
Proof.
  induction k as [| k IH]; intros st Hk Hsame; [reflexivity |].
  cbn [emit_backwards].
  destruct (lookup_lt_is_Some_2 ds k ltac:(lia)) as [x Hx].
  rewrite (Hsame k) by lia. rewrite Hx. cbn [default].
  rewrite (take_S_r _ _ _ Hx), rev_app_distr. cbn [rev app].
  rewrite emit_cons. apply IH; [lia |]. intros i Hi. apply Hsame. lia.
Qed.

(** From a buffer of 32 bytes, the two loops of [vga_write_int] emit the
    stored digits in the reverse order of the stores. *)
Lemma digit_loops_emit (tmp0 : list ascii) (v : Z) (st : vga_state) :
  length tmp0 = 32%nat →
  (let '(_, n, tmp) := digit_loop 31 v 0%nat tmp0 in emit_backwards tmp n st)
  = emit (rev (stored_digits 31 v 0)) st.
Proof.
  intros Hlen.
  destruct (digit_loop_buffer 31 v 0 tmp0 ltac:(lia))
    as (v' & tmp' & Heq & _ & _ & Hnew).
  rewrite Heq. cbn [Nat.add].
  rewrite (emit_backwards_rev tmp' (stored_digits 31 v 0)).
  - rewrite firstn_all. reflexivity.
  - lia.
  - intros i Hi. apply (Hnew i Hi).
Qed.

(** ** vga_write_int: the digits are the decimal notation *)

Lemma digit_char_code (v : Z) :
  0 < v → uint8_of_char (digit_char v) = 48 + v mod 10.
Proof.
  intros Hv. unfold digit_char.
  rewrite Z.rem_mod_nonneg by lia.
  pose proof (Z.mod_pos_bound v 10 ltac:(lia)).
  apply uint8_of_char_of_Z. lia.
Qed.

Lemma digits_value_snoc (ds : list ascii) (c : ascii) :
  digits_value (ds ++ [ c ]) = digits_value ds * 10 + (uint8_of_char c - 48).
Proof. unfold digits_value. rewrite fold_left_app. reflexivity. Qed.

Lemma forallb_snoc {A : Type} (f : A → bool) (l : list A) (x : A) :
  forallb f (l ++ [ x ]) = forallb f l && f x.
Proof. rewrite forallb_app. cbn. rewrite andb_true_r. reflexivity. Qed.

Lemma stored_digits_decimal (bound : nat) :
  ∀ (v : Z) (n : nat),
    0 < v < 10 ^ Z.of_nat bound → (n + bound ≤ 31)%nat →
    let ds := stored_digits bound v n in
    forallb is_digit (rev ds) = true
    ∧ digits_value (rev ds) = v
    ∧ ∃ c, leading ds = Some c ∧ c ≠ "0"%char.
Proof.
  induction bound as [| bound IH]; intros v n Hv Hn.
  - cbn in Hv. lia.
  - cbn [stored_digits].
    assert ((0 <? v) && (n <? 31)%nat = true) as ->.
    { apply andb_true_intro. split; [apply Z.ltb_lt; lia |].
      apply Nat.ltb_lt. lia. }
    pose proof (digit_char_code v ltac:(lia)) as Hcode.
    pose proof (Z.mod_pos_bound v 10 ltac:(lia)) as Hmod.
    assert (is_digit (digit_char v) = true) as Hdig.
    { unfold is_digit. rewrite Hcode.
      apply andb_true_intro. split; apply Z.leb_le; lia. }
    rewrite Z.quot_div_nonneg by lia.
    pose proof (Z.div_mod v 10 ltac:(lia)) as Hdm.
    destruct (Z.eq_dec (v / 10) 0) as [Hz | Hnz].
    + rewrite Hz.
      assert (stored_digits bound 0 (S n) = []) as ->
        by (destruct bound; reflexivity).
      cbn - [is_digit digit_char]. rewrite Hdig.
      unfold digits_value. cbn [fold_left]. rewrite Hcode.
      repeat split; [lia |].
      exists (digit_char v). split; [reflexivity |].
      intros Heq. rewrite Heq in Hcode.
      change (uint8_of_char "0") with 48 in Hcode. lia.
    + assert (0 <= v / 10) as Hq0 by (apply Z.div_pos; lia).
      assert (v / 10 < 10 ^ Z.of_nat bound) as Hq.
      { apply Z.div_lt_upper_bound; [lia |].
        rewrite <- Z.pow_succ_r by lia. rewrite <- Nat2Z.inj_succ. lia. }
      destruct (IH (v / 10) (S n) ltac:(lia) ltac:(lia))
        as (Hall & Hval & c & Hlead & Hc).
      cbv zeta. cbn [rev].
      rewrite forallb_snoc, digits_value_snoc, Hall, Hdig, Hval, Hcode.
      repeat split; [lia |].
      exists c. split; [| exact Hc].
      unfold leading in *. cbn [rev].
      destruct (rev (stored_digits bound (v / 10) (S n))); [discriminate |].
      exact Hlead.
Qed.

Lemma decimal_of_stored_digits (v : Z) :
  0 < v <= INT64_MAX → decimal_of v (rev (stored_digits 31 v 0)) = true.
Proof.
  intros Hv.
  destruct (stored_digits_decimal 31 v 0) as (Hall & Hval & c & Hlead & Hc).
  { unfold INT64_MAX in Hv. split; [lia |].
    eapply Z.le_lt_trans; [apply Hv |]. reflexivity. }
  { lia. }
  unfold decimal_of. rewrite Hall, Hval, Z.eqb_refl. cbn [andb].
  unfold leading in Hlead.
  destruct (rev (stored_digits 31 v 0)) as [| c' [| c'' l]];
    [discriminate | reflexivity |].
  cbn in Hlead. injection Hlead as ->.
  rewrite (ascii_eqb_false _ _ Hc). reflexivity.
Qed.

(** ** Decimal notation is unique *)

Lemma is_digit_range (c : ascii) :
  is_digit c = true → 48 <= uint8_of_char c <= 57.
Proof.
  unfold is_digit. intros Hd. apply andb_prop in Hd as [Hlo Hhi].
  apply Z.leb_le in Hlo. apply Z.leb_le in Hhi. lia.
Qed.

Lemma uint8_of_char_inj (c c' : ascii) :
  uint8_of_char c = uint8_of_char c' → c = c'.
Proof.
  unfold uint8_of_char. intros Heq. apply N2Z.inj in Heq.
  rewrite <- (ascii_N_embedding c), <- (ascii_N_embedding c'), Heq.
  reflexivity.
Qed.

Lemma digits_value_bound (ds : list ascii) :
  forallb is_digit ds = true →
  0 <= digits_value ds < 10 ^ Z.of_nat (length ds).
Proof.
  induction ds as [| c ds IH] using rev_ind; intros Hall.
  - cbn. lia.
  - rewrite forallb_snoc in Hall. apply andb_prop in Hall as [Hall Hc].
    apply is_digit_range in Hc. specialize (IH Hall).
    rewrite digits_value_snoc, length_app. cbn [length].
    replace (Z.of_nat (length ds + 1)) with (Z.succ (Z.of_nat (length ds)))
      by lia.
    rewrite Z.pow_succ_r by lia. lia.
Qed.

Lemma digits_value_leading (c : ascii) (ds : list ascii) :
  forallb is_digit (c :: ds) = true → c ≠ "0"%char →
  10 ^ Z.of_nat (length ds) <= digits_value (c :: ds).
Proof.
  induction ds as [| x ds IH] using rev_ind; intros Hall Hc.
  - cbn [forallb] in Hall. apply andb_prop in Hall as [Hd _].
    apply is_digit_range in Hd.
    assert (uint8_of_char c ≠ 48) as Hne.
    { intros Heq. apply Hc. apply uint8_of_char_inj. exact Heq. }
    unfold digits_value. cbn [fold_left length Z.of_nat].
    change (10 ^ 0) with 1. lia.
  - change (c :: ds ++ [ x ]) with ((c :: ds) ++ [ x ]) in *.
    rewrite forallb_snoc in Hall. apply andb_prop in Hall as [Hall Hx].
    apply is_digit_range in Hx. specialize (IH Hall Hc).
    rewrite digits_value_snoc, length_app. cbn [length].
    replace (Z.of_nat (length ds + 1)) with (Z.succ (Z.of_nat (length ds)))
      by lia.
    rewrite Z.pow_succ_r by lia. lia.
Qed.

Lemma digits_value_inj (ds : list ascii) :
  ∀ ds', length ds = length ds' →
         forallb is_digit ds = true → forallb is_digit ds' = true →
         digits_value ds = digits_value ds' → ds = ds'.
Proof.
  induction ds as [| x ds IH] using rev_ind; intros ds' Hlen Hall Hall' Hval.
  - destruct ds'; [reflexivity | discriminate Hlen].
  - destruct ds' as [| x' ds' _] using rev_ind.
    { rewrite length_app in Hlen. cbn in Hlen. lia. }
    rewrite !length_app in Hlen. cbn [length] in Hlen.
    rewrite forallb_snoc in Hall, Hall'.
    apply andb_prop in Hall as [Hall Hx].
    apply andb_prop in Hall' as [Hall' Hx'].
    apply is_digit_range in Hx. apply is_digit_range in Hx'.
    rewrite !digits_value_snoc in Hval.
    assert (digits_value ds = digits_value ds'
            ∧ uint8_of_char x = uint8_of_char x') as [Hv Hc] by lia.
    rewrite (IH ds' ltac:(lia) Hall Hall' Hv).
    rewrite (uint8_of_char_inj _ _ Hc). reflexivity.
Qed.

(** A representation is at least as long as any shorter-or-equal one of
    the same number: a longer list without leading zero denotes more. *)
Lemma decimal_of_length_le (v : Z) (ds ds' : list ascii) :
  decimal_of v ds = true → decimal_of v ds' = true →
  (length ds' ≤ length ds)%nat.
Proof.
  unfold decimal_of. intros Hd Hd'.
  apply andb_prop in Hd as [Hd Hlead]. apply andb_prop in Hd as [Hall Hv].
  apply andb_prop in Hd' as [Hd' Hlead'].
  apply andb_prop in Hd' as [Hall' Hv'].
  apply Z.eqb_eq in Hv. apply Z.eqb_eq in Hv'.
  destruct (Nat.le_gt_cases (length ds') (length ds)) as [Hle | Hgt];
    [exact Hle | exfalso].
  pose proof (digits_value_bound ds Hall) as Hup.
  destruct ds' as [| c [| c' rest]].
  - discriminate Hlead'.
  - destruct ds; [discriminate Hlead | cbn [length] in Hgt; lia].
  - apply negb_true_iff in Hlead'. apply Ascii.eqb_neq in Hlead'.
    pose proof (digits_value_leading c (c' :: rest) Hall' Hlead') as Hlow.
    assert (10 ^ Z.of_nat (length ds) <= 10 ^ Z.of_nat (length (c' :: rest)))
      as Hpow by (apply Z.pow_le_mono_r; cbn [length] in *; lia).
    lia.
Qed.

Lemma decimal_of_unique (v : Z) (ds ds' : list ascii) :
  decimal_of v ds = true → decimal_of v ds' = true → ds = ds'.
Proof.
  intros Hd Hd'.
  pose proof (decimal_of_length_le v ds ds' Hd Hd') as Hle.
  pose proof (decimal_of_length_le v ds' ds Hd' Hd) as Hle'.
  unfold decimal_of in Hd, Hd'.
  apply andb_prop in Hd as [Hd _]. apply andb_prop in Hd as [Hall Hv].
  apply andb_prop in Hd' as [Hd' _]. apply andb_prop in Hd' as [Hall' Hv'].
  apply Z.eqb_eq in Hv. apply Z.eqb_eq in Hv'.
  apply digits_value_inj; [lia | exact Hall | exact Hall' | congruence].
Qed.

(** Cells that hold a value keep holding one: [putc] only ever stores. *)
Lemma putc_keeps_cells (c : ascii) (st : vga_state) (k : Z) :
  is_Some (VGA st !! k) → is_Some (VGA (putc c st) !! k).
Proof.
  intros Hk. unfold putc.
  destruct (Ascii.eqb c newline); [exact Hk |]. cbv zeta.
  destruct (WIDTH <=? wrap32 (col st + 1)); cbn [VGA];
    rewrite lookup_insert; case_decide; eauto.
Qed.

Lemma emit_keeps_cells (cs : list ascii) (k : Z) :
  ∀ st, is_Some (VGA st !! k) → is_Some (VGA (emit cs st) !! k).
Proof.
  induction cs as [| c cs IH]; intros st Hk; [exact Hk |].
  rewrite emit_cons. apply IH, putc_keeps_cells, Hk.
Qed.

Lemma vga_write_int_positive (tmp0 : list ascii) (v : Z) (st : vga_state) :
  0 < v → length tmp0 = 32%nat →
  vga_write_int tmp0 v st = emit (rev (stored_digits 31 v 0)) st.
Proof.
  intros Hv Hlen. unfold vga_write_int.
  destruct (Z.eqb_spec v 0); [lia |].
  destruct (Z.ltb_spec v 0); [lia |].
  apply digit_loops_emit, Hlen.
Qed.

Lemma vga_write_int_negative (tmp0 : list ascii) (v : Z) (st : vga_state) :
  INT64_MIN < v < 0 → length tmp0 = 32%nat →
  vga_write_int tmp0 v st = emit ("-"%char :: rev (stored_digits 31 (- v) 0)) st.
Proof.
  intros Hv Hlen. unfold vga_write_int.
  destruct (Z.eqb_spec v 0); [lia |].
  destruct (Z.ltb_spec v 0); [| lia].
  rewrite wrap64_id by (unfold is_int64, INT64_MIN, INT64_MAX in *; lia).
  rewrite emit_cons. apply digit_loops_emit, Hlen.
Qed.

(** [C5]: for [0 <= v <= INT64_MAX], [vga_write_int] is the run of [putc]
    over the decimal representation of [v] (digits only, most significant
    first, no leading zero, nothing else; there is one such list), which
    is the one glyph '0' for 0; for 42 it is '4' then '2'.  [tmp0] is what
    the 32-byte buffer [tmp] holds on entry. *)
Theorem vga_write_int_emits_decimal (tmp0 : list ascii) (v : Z) :
  0 <= v <= INT64_MAX → length tmp0 = 32%nat →
  (∃ ds, decimal_of v ds = true
         ∧ (∀ ds', decimal_of v ds' = true → ds' = ds)
         ∧ (v = 0 → ds = [ "0"%char ])
         ∧ ∀ st, vga_write_int tmp0 v st = emit ds st)
  ∧ (∀ st, vga_write_int tmp0 42 st = putc "2" (putc "4" st)).
Proof.
  intros Hv Hlen. split.
  - assert (∃ ds, decimal_of v ds = true
                  ∧ (v = 0 → ds = [ "0"%char ])
                  ∧ ∀ st, vga_write_int tmp0 v st = emit ds st)
      as (ds & Hdec & Hzero & Hemit).
    { destruct (Z.eq_dec v 0) as [-> | Hnz].
      - exists [ "0"%char ]. repeat split.
      - exists (rev (stored_digits 31 v 0)). split; [| split].
        + apply decimal_of_stored_digits. lia.
        + intros ->. lia.
        + intros st. apply vga_write_int_positive; [lia | exact Hlen]. }
    exists ds. split; [exact Hdec |]. split; [| split; assumption].
    intros ds' Hdec'. apply (decimal_of_unique v); assumption.
  - intros st. rewrite vga_write_int_positive by (first [lia | exact Hlen]).
    reflexivity.
Qed.

Lemma vga_write_int_emits_decimal_witness :
  ∃ ds, decimal_of 2026 ds = true
        ∧ ∀ st, vga_write_int scratch 2026 st = emit ds st.
Proof.
  assert (0 <= 2026 <= INT64_MAX) as Hv by (unfold INT64_MAX; lia).
  assert (length scratch = 32%nat) as Hlen by reflexivity.
  destruct (vga_write_int_emits_decimal scratch 2026 Hv Hlen)
    as [(ds & Hdec & _ & _ & Hemit) _].
  exists ds. split; [exact Hdec | exact Hemit].
Defined.

(** [C6], as amended: for [INT64_MIN < v < 0], [vga_write_int] is the run
    of [putc] over a minus sign followed by the decimal representation of
    [-v] (of which there is one); for -7 it is '-' then '7'. *)
Theorem vga_write_int_negative_emits_minus_decimal
    (tmp0 : list ascii) (v : Z) :
  INT64_MIN < v < 0 → length tmp0 = 32%nat →
  (∃ ds, decimal_of (- v) ds = true
         ∧ (∀ ds', decimal_of (- v) ds' = true → ds' = ds)
         ∧ ∀ st, vga_write_int tmp0 v st = emit ("-"%char :: ds) st)
  ∧ (∀ st, vga_write_int tmp0 (-7) st = putc "7" (putc "-" st)).
Proof.
  intros Hv Hlen. split.
  - assert (decimal_of (- v) (rev (stored_digits 31 (- v) 0)) = true) as Hdec.
    { apply decimal_of_stored_digits.
      unfold INT64_MIN, INT64_MAX in *. lia. }
    exists (rev (stored_digits 31 (- v) 0)). split; [exact Hdec |]. split.
    + intros ds' Hdec'. apply (decimal_of_unique (- v)); assumption.
    + intros st. apply vga_write_int_negative; assumption.
  - intros st. rewrite vga_write_int_negative; [reflexivity | | exact Hlen].
    unfold INT64_MIN. lia.
Qed.

Lemma vga_write_int_negative_emits_minus_decimal_witness :
  ∃ ds, decimal_of 315 ds = true
        ∧ ∀ st, vga_write_int scratch (-315) st = emit ("-"%char :: ds) st.
Proof.
  assert (INT64_MIN < -315 < 0) as Hv by (unfold INT64_MIN; lia).
  assert (length scratch = 32%nat) as Hlen by reflexivity.
  destruct (vga_write_int_negative_emits_minus_decimal
              scratch (-315) Hv Hlen) as [(ds & Hdec & _ & Hemit) _].
  exists ds. split; [exact Hdec | exact Hemit].
Defined.

(** [C6] as it is worded fails at [INT64_MIN]: on a blank console the call
    does not leave what a minus sign followed by the digits of
    9223372036854775808 would. *)
Lemma vga_write_int_INT64_MIN_no_digits :
  ¬ renders_minus_then_digits scratch INT64_MIN blank.
Proof.
  intros (ds & Hdec & Heq).
  assert (VGA (vga_write_int scratch INT64_MIN blank) !! 1 = None) as Hnone
    by reflexivity.
  rewrite Heq in Hnone.
  destruct ds as [| c ds].
  { discriminate Hdec. }
  unfold decimal_of in Hdec. cbn [forallb] in Hdec.
  apply andb_prop in Hdec as [Hdec _]. apply andb_prop in Hdec as [Hdec _].
  apply andb_prop in Hdec as [Hc _].
  assert (c ≠ newline) as Hnl by (intros ->; discriminate Hc).
  rewrite !emit_cons in Hnone.
  assert (is_Some (VGA (putc c (putc "-" blank)) !! 1)) as Hsome.
  { assert (0 <= col (putc "-" blank) < WIDTH) as Hcol
      by (change (col (putc "-" blank)) with 1; unfold WIDTH; lia).
    rewrite (putc_other_eq c _ Hnl Hcol). cbn [VGA].
    change (col (putc "-" blank)) with 1.
    change (wrap_row (row (putc "-" blank))) with 0.
    change (cell_index 0 1) with 1.
    rewrite lookup_insert_eq. eauto. }
  apply (emit_keeps_cells ds) in Hsome.
  rewrite Hnone in Hsome. destruct Hsome as [? ?]. discriminate.
Qed.

(** [C10]: negating [INT64_MIN] modulo 2^64 gives [INT64_MIN] again, which
    is not greater than zero, so the digit loop stores nothing ([n] stays 0)
    and the call is the single [putc] of the minus sign. *)
Theorem vga_write_int_INT64_MIN_only_minus
    (tmp0 : list ascii) (st : vga_state) :
  wrap64 (- INT64_MIN) = INT64_MIN
  ∧ digit_loop 31 (wrap64 (- INT64_MIN)) 0 tmp0 = (INT64_MIN, 0%nat, tmp0)
  ∧ vga_write_int tmp0 INT64_MIN st = putc "-" st
  ∧ vga_write_int tmp0 INT64_MIN st = emit [ "-"%char ] st.
Proof. repeat split. Qed.

(** ** The cursor over sequences of calls *)

Lemma vga_init_cursor_ok (st : vga_state) : cursor_ok (vga_init st).
Proof.
  split; cbn; unfold is_int, INT_MIN, INT_MAX, WIDTH; lia.
Qed.

Lemma vga_write_string_cursor_ok (s : list ascii) (st : vga_state) :
  cursor_ok st → cursor_ok (vga_write_string s st).
Proof. rewrite vga_write_string_emit. apply emit_cursor_ok. Qed.

Lemma emit_backwards_cursor_ok (tmp : list ascii) (n : nat) :
  ∀ st, cursor_ok st → cursor_ok (emit_backwards tmp n st).
Proof.
  induction n as [| n IH]; intros st Hst; [exact Hst |].
  cbn [emit_backwards]. apply IH, putc_cursor_ok, Hst.
Qed.

Lemma vga_write_int_cursor_ok (tmp0 : list ascii) (v : Z) (st : vga_state) :
  cursor_ok st → cursor_ok (vga_write_int tmp0 v st).
Proof.
  intros Hst. unfold vga_write_int.
  destruct (v =? 0); [apply putc_cursor_ok, Hst |].
  destruct (v <? 0).
  - destruct (digit_loop 31 (wrap64 (- v)) 0 tmp0) as [[v' n] tmp].
    apply emit_backwards_cursor_ok, putc_cursor_ok, Hst.
  - destruct (digit_loop 31 v 0 tmp0) as [[v' n] tmp].
    apply emit_backwards_cursor_ok, Hst.
Qed.

Lemma do_call_cursor_ok (o : console_call) (st : vga_state) :
  cursor_ok st → cursor_ok (do_call o st).
Proof.
  destruct o; cbn [do_call]; intros Hst.
  - apply vga_init_cursor_ok.
  - apply putc_cursor_ok, Hst.
  - apply vga_write_string_cursor_ok, Hst.
  - apply vga_write_int_cursor_ok, Hst.
Qed.

Lemma run_cursor_ok (os : list console_call) :
  ∀ st, cursor_ok st → cursor_ok (run os st).
Proof.
  induction os as [| o os IH]; intros st Hst; [exact Hst |].
  apply IH, do_call_cursor_ok, Hst.
Qed.

(** [C2], as amended: after every sequence of calls that starts with
    [vga_init], the column is within [0, WIDTH).  The row is not kept
    below [HEIGHT]: it is taken back to 0 only when the next character
    other than newline is written, which then goes to row 0 at the
    unchanged column and leaves the row at most at [HEIGHT]. *)
Theorem column_in_range_row_wrapped_on_write
    (os : list console_call) (st : vga_state) (c : ascii) :
  let s := run os (vga_init st) in
  (0 <= col s < WIDTH)
  ∧ (c ≠ newline →
     row (putc c s) <= HEIGHT
     ∧ (HEIGHT <= row s → putc_index s = col s)).
Proof.
  intros s.
  destruct (run_cursor_ok os _ (vga_init_cursor_ok st)) as [Hr Hc].
  fold s in Hr, Hc. split; [exact Hc |]. intros Hne. split.
  - rewrite putc_other_eq by assumption. cbn [row].
    pose proof (wrap_row_lt (row s)) as Hlt.
    pose proof (wrap_row_is_int _ Hr) as Hint.
    destruct (col s + 1 =? WIDTH); [| lia].
    rewrite wrap32_id; unfold is_int, INT_MIN, INT_MAX, HEIGHT in *; lia.
  - intros Hge. unfold putc_index, wrap_row.
    destruct (Z.leb_spec HEIGHT (row s)); [| lia].
    rewrite cell_index_exact; unfold HEIGHT, WIDTH in *; lia.
Qed.

Lemma column_in_range_row_wrapped_on_write_witness :
  let s := run [ WriteString (replicate 25 newline); WriteCharacter "x" ]
               (vga_init blank) in
  row (putc "y" s) <= HEIGHT.
Proof.
  intros s.
  assert ("y"%char ≠ newline) as Hne by discriminate.
  exact (proj1 (proj2 (column_in_range_row_wrapped_on_write
                         [ WriteString (replicate 25 newline);
                           WriteCharacter "x" ] blank "y"%char) Hne)).
Defined.

(** [C2] as it is worded fails: 25 newlines after [vga_init] leave the
    cursor at row 25, which is [HEIGHT]. *)
Lemma row_reaches_HEIGHT :
  row (run [ WriteString (replicate 25 newline) ] (vga_init blank)) = HEIGHT
  ∧ ¬ cursor_in_grid
        (run [ WriteString (replicate 25 newline) ] (vga_init blank)).
Proof.
  split; [reflexivity |].
  intros [_ [_ Hlt]]. vm_compute in Hlt. discriminate Hlt.
Qed.

(** The first result line of the boot screen: after [vga_init], writing
    "add(20,22): " and then 42 leaves the cursor in row 0 at column 14,
    with these glyphs in the cells 0 to 13. *)
Example add_line_on_blank_console :
  let s := run [ Initialize; WriteString (cstr "add(20,22): ");
                 WriteInteger 42 scratch ] blank in
  row s = 0 ∧ col s = 14
  ∧ map (λ i, VGA s !! i) (seqZ 0 14)
    = map (λ c, Some (glyph c)) (cstr "add(20,22): 42").
Proof. repeat split. Qed.

(** ** Overflow of the row counter *)

Lemma emit_newlines (n : nat) :
  ∀ (r : Z) (mem : gmap Z Z),
    emit (replicate n newline) {| row := wrap32 r; col := 0; VGA := mem |}
    = {| row := wrap32 (r + Z.of_nat n); col := 0; VGA := mem |}.
Proof.
  induction n as [| n IH]; intros r mem.
  - cbn [replicate]. unfold emit. cbn [fold_left].
    rewrite Z.add_0_r. reflexivity.
  - cbn [replicate]. rewrite emit_cons, putc_newline_eq. cbn [row VGA].
    rewrite wrap32_add_l, IH. do 2 f_equal. lia.
Qed.

Lemma until_NUL_newlines (n : nat) :
  until_NUL (replicate n newline) = replicate n newline.
Proof.
  apply until_NUL_whole, Forall_replicate. discriminate.
Qed.

Lemma run_newlines_after_init (k : Z) (st : vga_state) :
  0 <= k →
  run [ WriteString (replicate (Z.to_nat k) newline) ] (vga_init st)
  = {| row := wrap32 k; col := 0; VGA := VGA st |}.
Proof.
  intros Hk. unfold run. cbn [fold_left do_call].
  rewrite vga_write_string_emit, until_NUL_newlines.
  unfold vga_init. change 0 with (wrap32 0) at 1.
  rewrite emit_newlines, Z2Nat.id by exact Hk. reflexivity.
Qed.

(** [C1] at its failing input: after [vga_init] and a string of
    2^31 + 25 newlines the row counter has wrapped to [INT_MIN + 25]; the
    test [row >= HEIGHT] does not fire for it, the index [row*WIDTH + col]
    comes to 2000, and the next character is stored at cell offset 2000,
    which is [WIDTH*HEIGHT], the first offset past the display surface. *)
Theorem putc_stores_past_surface_after_row_overflow (st : vga_state) :
  let s := run [ WriteString (replicate (Z.to_nat (2 ^ 31 + 25)) newline) ]
               (vga_init st) in
  row s = INT_MIN + 25 ∧ col s = 0
  ∧ putc_index s = WIDTH * HEIGHT
  ∧ VGA (putc "A" s) !! (WIDTH * HEIGHT) = Some (glyph "A")
  ∧ ¬ (0 <= putc_index s < WIDTH * HEIGHT).
Proof.
  intros s.
  assert (s = {| row := INT_MIN + 25; col := 0; VGA := VGA st |}) as ->.
  { subst s. apply run_newlines_after_init. lia. }
  repeat split.
  - unfold putc. cbn [VGA row col]. apply lookup_insert_eq.
  - change (putc_index {| row := INT_MIN + 25; col := 0; VGA := VGA st |})
      with 2000.
    unfold WIDTH, HEIGHT. lia.
Qed.

(** [C4] at its failing input: after [vga_init] and a string of
    2^31 - 1 newlines the cursor is at row [INT_MAX], column 0; one more
    newline stores nothing and leaves the column at 0, but [row++] has no
    next row to go to: the row becomes [INT_MIN], which is not [row+1]. *)
Theorem putc_newline_at_INT_MAX_wraps (st : vga_state) :
  let s := run [ WriteString (replicate (Z.to_nat (2 ^ 31 - 1)) newline) ]
               (vga_init st) in
  row s = INT_MAX ∧ col s = 0
  ∧ row (putc newline s) = INT_MIN
  ∧ row (putc newline s) ≠ row s + 1
  ∧ col (putc newline s) = 0
  ∧ VGA (putc newline s) = VGA s.
Proof.
  intros s.
  assert (s = {| row := INT_MAX; col := 0; VGA := VGA st |}) as ->.
  { subst s. apply run_newlines_after_init. lia. }
  rewrite putc_newline_eq. cbn [row col VGA].
  change (wrap32 (INT_MAX + 1)) with INT_MIN.
  unfold INT_MIN, INT_MAX. repeat split; lia.
Qed.

(** ** kmain *)

Section KernelEntry.
Context `{GenLogic}.
Variable tmp0 : list ascii.

Lemma krun_add (a c : nat) :
  ∀ k, Kernel.krun tmp0 (a + c) k
       = match Kernel.krun tmp0 a k with
         | None => None
         | Some (e1, k1) =>
             match Kernel.krun tmp0 c k1 with
             | None => None
             | Some (e2, k2) => Some (e1 ++ e2, k2)
             end
         end.
Proof.
  induction a as [| a IH]; intros k; cbn [Nat.add Kernel.krun].
  - destruct (Kernel.krun tmp0 c k) as [[e2 k2] |]; reflexivity.
  - destruct (Kernel.kstep tmp0 k) as [[e k'] |]; [| reflexivity].
    rewrite IH. destruct (Kernel.krun tmp0 a k') as [[e1 k1] |];
      [| reflexivity].
    destruct (Kernel.krun tmp0 c k1) as [[e2 k2] |]; [| reflexivity].
    rewrite app_assoc. reflexivity.
Qed.

(** At line 23 every step is a [hlt] that stays at line 23. *)
Lemma krun_idle (n : nat) (k : Kernel.kstate) :
  Kernel.pc k = Kernel.L23 →
  Kernel.krun tmp0 n k = Some (replicate n Kernel.EvHlt, k).
Proof.
  intros Hpc. induction n as [| n IH]; [reflexivity |].
  cbn [Kernel.krun]. unfold Kernel.kstep. rewrite Hpc, IH. reflexivity.
Qed.

Lemma logic_calls_app (e1 e2 : list Kernel.kevent) :
  Kernel.logic_calls (e1 ++ e2)
  = Kernel.logic_calls e1 ++ Kernel.logic_calls e2.
Proof.
  induction e1 as [| [o | f |] e1 IH]; cbn; rewrite ?IH; reflexivity.
Qed.

Lemma logic_calls_idle (n : nat) :
  Kernel.logic_calls (replicate n Kernel.EvHlt) = [].
Proof. induction n as [| n IH]; [reflexivity | exact IH]. Qed.

(** Take the steps of a run from an explicit state, one source line at a
    time, keeping the console calls as they are. *)
Ltac kernel_steps :=
  cbn [Kernel.krun Kernel.kstep Kernel.console Kernel.kentry Kernel.kputs
       Kernel.pc Kernel.con Kernel.b Kernel.m Kernel.z Kernel.mx Kernel.d
       Nat.add app map].

(** [C9]: entered with any console state and any values in its locals,
    [kmain] first calls [vga_init], writes the banner line, calls
    [banner], [meaning], [add(20,22)], [max2(11,17)] and [demo_expr],
    each once and in this order, writes one labeled line per result, and
    is then at the [hlt] loop of line 23: however many steps are taken,
    the rest of the run is [hlt] after [hlt] at line 23, no further call
    or console write happens, and the closing brace (the return of
    [kmain]) is not reached.  The console then is what these console
    calls make of the entry state. *)
Theorem kmain_boots_renders_then_idles
    (st : vga_state) (b0 : list ascii) (m0 z0 mx0 d0 : Z) (n : nat) :
  ∃ k,
    Kernel.krun tmp0 (12 + n) (Kernel.kentry st b0 m0 z0 mx0 d0)
      = Some (Kernel.boot_events tmp0 ++ replicate n Kernel.EvHlt, k)
    ∧ Kernel.pc k = Kernel.L23
    ∧ Kernel.kstep tmp0 k = Some ([ Kernel.EvHlt ], k)
    ∧ Kernel.con k = run (Kernel.console_calls (Kernel.boot_events tmp0)) st
    ∧ Kernel.logic_calls
        (Kernel.boot_events tmp0 ++ replicate n Kernel.EvHlt)
      = [ Kernel.CallBanner; Kernel.CallMeaning; Kernel.CallAdd 20 22;
          Kernel.CallMax2 11 17; Kernel.CallDemoExpr ]
    ∧ ∀ i, ∃ evs k',
        Kernel.krun tmp0 i (Kernel.kentry st b0 m0 z0 mx0 d0)
          = Some (evs, k')
        ∧ Kernel.pc k' ≠ Kernel.Lret.
Proof.
  set (k0 := Kernel.kentry st b0 m0 z0 mx0 d0).
  assert (∃ k, Kernel.krun tmp0 12 k0 = Some (Kernel.boot_events tmp0, k)
               ∧ Kernel.pc k = Kernel.L23
               ∧ Kernel.con k
                 = run (Kernel.console_calls (Kernel.boot_events tmp0)) st)
    as (k & Hboot & Hpc & Hcon).
  { subst k0. kernel_steps.
    eexists. split; [reflexivity |]. split; reflexivity. }
  exists k.
  split; [| split; [| split; [| split; [| split]]]].
  - rewrite krun_add, Hboot, (krun_idle n k Hpc). reflexivity.
  - exact Hpc.
  - unfold Kernel.kstep. rewrite Hpc. reflexivity.
  - exact Hcon.
  - rewrite logic_calls_app, logic_calls_idle. reflexivity.
  - intros i. destruct (Nat.le_gt_cases 12 i) as [Hge | Hlt].
    + replace i with (12 + (i - 12))%nat by lia.
      rewrite krun_add, Hboot, (krun_idle _ k Hpc).
      eexists _, k. split; [reflexivity |]. rewrite Hpc. discriminate.
    + subst k0.
      do 12 (destruct i as [| i];
             [kernel_steps; eexists _, _; split;
              [reflexivity | discriminate] |]).
      lia.
Qed.

End KernelEntry.

(** * Further properties of the driver *)

(** ** Text without newlines: the surface as a ring of cells *)

Lemma putc_ring_step (c : ascii) (s : vga_state) :
  c ≠ newline → 0 <= row s → cursor_ok s →
  0 <= row (putc c s) <= HEIGHT
  ∧ cursor_ok (putc c s)
  ∧ putc_index (putc c s) = (putc_index s + 1) mod (WIDTH * HEIGHT)
  ∧ col (putc c s) = (col s + 1) mod WIDTH.
Proof.
  intros Hc Hrow Hok. pose proof (putc_cursor_ok c s Hok) as Hok'.
  destruct Hok as [Hint Hcol].
  split; [| split; [exact Hok' |]].
  - rewrite putc_other_eq by assumption. cbn [row].
    pose proof (wrap_row_lt (row s)) as Hlt.
    assert (0 <= wrap_row (row s)) as Hge
      by (unfold wrap_row; destruct (HEIGHT <=? row s); lia).
    destruct (col s + 1 =? WIDTH); [| unfold HEIGHT in *; lia].
    rewrite wrap32_id; unfold is_int, INT_MIN, INT_MAX, HEIGHT in *; lia.
  - unfold putc_index at 2.
    rewrite putc_other_eq by assumption. unfold putc_index. cbn [row col].
    pose proof (wrap_row_lt (row s)) as Hlt.
    assert (0 <= wrap_row (row s)) as Hge
      by (unfold wrap_row; destruct (HEIGHT <=? row s); lia).
    set (r := wrap_row (row s)) in *.
    rewrite (cell_index_exact r (col s)) by lia.
    unfold WIDTH, HEIGHT in *.
    destruct (Z.eqb_spec (col s + 1) 80) as [Heq | Hne].
    + rewrite (wrap32_id (r + 1)) by (unfold is_int, INT_MIN, INT_MAX; lia).
      replace (r * 80 + col s + 1) with ((r + 1) * 80) by lia.
      rewrite Heq. change (80 mod 80) with 0.
      destruct (Z.eq_dec r 24) as [-> | Hr].
      * split; reflexivity.
      * assert (wrap_row (r + 1) = r + 1) as ->
          by (unfold wrap_row, HEIGHT; destruct (Z.leb_spec 25 (r + 1)); lia).
        split; [| reflexivity].
        rewrite cell_index_exact by (unfold HEIGHT, WIDTH; lia).
        unfold WIDTH. rewrite Z.mod_small; lia.
    + assert (wrap_row r = r) as ->
        by (unfold wrap_row, HEIGHT; destruct (Z.leb_spec 25 r); lia).
      rewrite cell_index_exact by (unfold HEIGHT, WIDTH; lia).
      unfold WIDTH. rewrite !Z.mod_small; lia.
Qed.

Lemma emit_text_row (cs : list ascii) :
  ∀ st, Forall (λ c, c ≠ newline) cs → 0 <= row st → cursor_ok st →
        0 <= row (emit cs st) ∧ cursor_ok (emit cs st).
Proof.
  induction cs as [| c cs IH]; intros st Hcs Hrow Hok; [split; assumption |].
  apply Forall_cons in Hcs as [Hc Hcs]. rewrite emit_cons.
  destruct (putc_ring_step c st Hc Hrow Hok) as ([Hr _] & Hok' & _).
  apply IH; assumption.
Qed.

(** Text without newlines moves through the surface cell by cell, going
    from the last cell back to cell 0: after [cs], the next store goes to
    the cell [length cs] places on, modulo [WIDTH*HEIGHT], and the column
    has moved on by [length cs] modulo [WIDTH]. *)
Theorem emit_text_advances_around_surface
    (cs : list ascii) (st : vga_state) :
  Forall (λ c, c ≠ newline) cs → 0 <= row st → cursor_ok st →
  putc_index (emit cs st)
    = (putc_index st + Z.of_nat (length cs)) mod (WIDTH * HEIGHT)
  ∧ col (emit cs st) = (col st + Z.of_nat (length cs)) mod WIDTH.
Proof.
  revert st. induction cs as [| c cs IH]; intros st Hcs Hrow Hok.
  - cbn [length Z.of_nat]. rewrite !Z.add_0_r.
    pose proof (putc_index_in_bounds st Hrow (proj2 Hok)) as Hin.
    destruct Hok as [_ Hcol].
    unfold emit. cbn [fold_left]. rewrite !Z.mod_small by lia. split; reflexivity.
  - apply Forall_cons in Hcs as [Hc Hcs]. rewrite emit_cons.
    destruct (putc_ring_step c st Hc Hrow Hok) as ([Hr _] & Hok' & Hidx & Hcol).
    destruct (IH (putc c st) Hcs Hr Hok') as [IHi IHc].
    rewrite IHi, IHc, Hidx, Hcol. cbn [length].
    rewrite !Zplus_mod_idemp_l.
    split; f_equal; lia.
Qed.

Lemma emit_text_advances_around_surface_witness :
  putc_index (emit (replicate 2001 "x"%char) (vga_init blank)) = 1.
Proof.
  assert (Forall (λ c, c ≠ newline) (replicate 2001 "x"%char)) as Hcs
    by (apply Forall_replicate; discriminate).
  assert (0 <= row (vga_init blank)) as Hrow by (cbn; lia).
  exact (proj1 (emit_text_advances_around_surface
                  (replicate 2001 "x"%char) (vga_init blank)
                  Hcs Hrow (vga_init_cursor_ok blank))).
Defined.

Lemma emit_text_frame
    (cs : list ascii) (st : vga_state) (k : Z) :
  Forall (λ c, c ≠ newline) cs → 0 <= row st → cursor_ok st →
  (∀ j, 0 <= j < Z.of_nat (length cs) →
        k ≠ (putc_index st + j) mod (WIDTH * HEIGHT)) →
  VGA (emit cs st) !! k = VGA st !! k.
Proof.
  revert st. induction cs as [| c cs IH]; intros st Hcs Hrow Hok Hk;
    [reflexivity |].
  apply Forall_cons in Hcs as [Hc Hcs]. rewrite emit_cons.
  destruct (putc_ring_step c st Hc Hrow Hok) as ([Hr _] & Hok' & Hidx & _).
  cbn [length] in Hk.
  rewrite (IH (putc c st) Hcs Hr Hok').
  - rewrite (putc_other_eq c st Hc (proj2 Hok)). cbn [VGA].
    apply lookup_insert_ne. fold (putc_index st).
    specialize (Hk 0 ltac:(lia)). rewrite Z.add_0_r in Hk.
    pose proof (putc_index_in_bounds st Hrow (proj2 Hok)) as Hin.
    rewrite Z.mod_small in Hk by lia. congruence.
  - intros j Hj. rewrite Hidx, Zplus_mod_idemp_l.
    replace (putc_index st + 1 + j) with (putc_index st + (j + 1)) by lia.
    apply Hk. lia.
Qed.



Lemma emit_text_cells
    (cs : list ascii) (st : vga_state) (i : nat) (c : ascii) :
  Forall (λ c, c ≠ newline) cs → 0 <= row st → cursor_ok st →
  Z.of_nat (length cs) <= WIDTH * HEIGHT →
  cs !! i = Some c →
  VGA (emit cs st) !! ((putc_index st + Z.of_nat i) mod (WIDTH * HEIGHT))
  = Some (glyph c).
Proof.
  revert st i. induction cs as [| c0 cs IH]; intros st i Hcs Hrow Hok Hlen Hi;
    [discriminate Hi |].
  apply Forall_cons in Hcs as [Hc0 Hcs]. rewrite emit_cons.
  destruct (putc_ring_step c0 st Hc0 Hrow Hok) as ([Hr _] & Hok' & Hidx & _).
  pose proof (putc_index_in_bounds st Hrow (proj2 Hok)) as Hin.
  cbn [length] in Hlen.
  destruct i as [| i].
  - injection Hi as ->. cbn [Z.of_nat]. rewrite Z.add_0_r.
    rewrite Z.mod_small by lia.
    rewrite (emit_text_frame cs (putc c st) (putc_index st)
               Hcs Hr Hok').
    + rewrite (putc_other_eq c st Hc0 (proj2 Hok)). cbn [VGA].
      apply lookup_insert_eq.
    + intros j Hj. rewrite Hidx, Zplus_mod_idemp_l.
      unfold WIDTH, HEIGHT in *. intros Heq.
      pose proof (Z.div_mod (putc_index st + 1 + j) (80 * 25) ltac:(lia))
        as Hdm.
      rewrite <- Heq in Hdm. lia.
  - cbn in Hi.
    replace ((putc_index st + Z.of_nat (S i)) mod (WIDTH * HEIGHT))
      with ((putc_index (putc c0 st) + Z.of_nat i) mod (WIDTH * HEIGHT)).
    + apply IH; [assumption .. | lia | exact Hi].
    + rewrite Hidx, Zplus_mod_idemp_l. f_equal. lia.
Qed.



(** ** Any characters: the row counter and the bounds of the stores *)

Lemma putc_row_step (c : ascii) (s : vga_state) :
  0 <= row s < INT_MAX → cursor_ok s →
  0 <= row (putc c s) <= row s + 1.
Proof.
  intros Hrow [Hint Hcol]. destruct (ascii_dec c newline) as [-> | Hc].
  - rewrite putc_newline_eq. cbn [row].
    rewrite wrap32_id; unfold is_int, INT_MIN, INT_MAX in *; lia.
  - destruct (putc_ring_step c s Hc ltac:(lia) (conj Hint Hcol))
      as ([Hr _] & _).
    split; [exact Hr |].
    rewrite putc_other_eq by assumption. cbn [row].
    assert (0 <= wrap_row (row s) <= row s) as Hw.
    { unfold wrap_row, HEIGHT. destruct (Z.leb_spec 25 (row s)); lia. }
    destruct (col s + 1 =? WIDTH); [| lia].
    rewrite wrap32_id; unfold is_int, INT_MIN, INT_MAX in *; lia.
Qed.

Lemma emit_row_bound (cs : list ascii) :
  ∀ st, 0 <= row st → cursor_ok st →
        row st + Z.of_nat (length cs) <= INT_MAX →
        0 <= row (emit cs st) <= row st + Z.of_nat (length cs)
        ∧ cursor_ok (emit cs st).
Proof.
  induction cs as [| c cs IH]; intros st Hrow Hok Hlen.
  - cbn [length Z.of_nat]. unfold emit. cbn [fold_left].
    split; [lia | exact Hok].
  - cbn [length] in Hlen. rewrite emit_cons.
    pose proof (putc_row_step c st ltac:(lia) Hok) as Hstep.
    destruct (IH (putc c st) ltac:(lia) (putc_cursor_ok c st Hok) ltac:(lia))
      as [Hr Hok'].
    split; [cbn [length]; lia | exact Hok'].
Qed.

(** As long as the row counter cannot have overflowed, every store is
    inside the display surface: from a state with a non-negative row, after
    any characters [cs] (newlines included) with [row + length cs] within
    [int], the row is still non-negative and the cell the next [putc]
    would store into has an offset in [0, WIDTH*HEIGHT).  After [vga_init]
    this covers the first 2^31 - 1 characters. *)
Theorem stores_in_bounds_before_row_overflow
    (cs : list ascii) (st : vga_state) :
  0 <= row st → cursor_ok st →
  row st + Z.of_nat (length cs) <= INT_MAX →
  0 <= row (emit cs st) <= row st + Z.of_nat (length cs)
  ∧ 0 <= putc_index (emit cs st) < WIDTH * HEIGHT.
Proof.
  intros Hrow Hok Hlen.
  destruct (emit_row_bound cs st Hrow Hok Hlen) as [Hr Hok'].
  split; [exact Hr |].
  apply putc_index_in_bounds; [lia | exact (proj2 Hok')].
Qed.

Lemma stores_in_bounds_before_row_overflow_witness :
  0 <= putc_index (emit (replicate 30 newline) (vga_init blank))
    < WIDTH * HEIGHT.
Proof.
  assert (0 <= row (vga_init blank)) as Hrow by (cbn; lia).
  assert (row (vga_init blank)
          + Z.of_nat (length (replicate 30 newline)) <= INT_MAX) as Hlen
    by (unfold INT_MAX; cbn; lia).
  exact (proj2 (stores_in_bounds_before_row_overflow
                  (replicate 30 newline) (vga_init blank)
                  Hrow (vga_init_cursor_ok blank) Hlen)).
Defined.

(** ** vga_write_int: the buffer and the characters written *)

Lemma digit_loop_count (bound : nat) :
  ∀ (v : Z) (n : nat) (tmp : list ascii),
    snd (fst (digit_loop bound v n tmp))
    = (n + length (stored_digits bound v n))%nat.
Proof.
  induction bound as [| bound IH]; intros v n tmp;
    cbn [digit_loop stored_digits].
  - cbn. lia.
  - destruct ((0 <? v) && (n <? 31)%nat).
    + rewrite IH. cbn [length]. lia.
    + cbn. lia.
Qed.

Lemma digit_loop_writes_below_count (bound : nat) :
  ∀ (v : Z) (n : nat) (tmp : list ascii),
    let '(_, n', tmp') := digit_loop bound v n tmp in
    (n ≤ n')%nat ∧ ((n' ≤ 31)%nat ∨ n' = n)
    ∧ length tmp' = length tmp
    ∧ ∀ i, (i < n ∨ n' ≤ i)%nat → tmp' !! i = tmp !! i.
Proof.
  induction bound as [| bound IH]; intros v n tmp; cbn [digit_loop].
  - repeat split; auto.
  - destruct ((0 <? v) && (n <? 31)%nat) eqn:Hg; [| repeat split; auto].
    apply andb_prop in Hg as [_ Hn]. apply Nat.ltb_lt in Hn.
    specialize (IH (Z.quot v 10) (S n) (<[ n := digit_char v ]> tmp)).
    destruct (digit_loop bound (Z.quot v 10) (S n) (<[ n := digit_char v ]> tmp))
      as [[v' n'] tmp'].
    destruct IH as (Hle & Hcap & Hlen & Hsame).
    rewrite length_insert in Hlen.
    repeat split; [lia | lia | exact Hlen |].
    intros i Hi. rewrite Hsame by lia. apply list_lookup_insert_ne. lia.
Qed.

Lemma digit_loop_takes_all_digits (bound : nat) :
  ∀ (v : Z) (n : nat) (tmp : list ascii),
    0 <= v < 10 ^ Z.of_nat bound → (n + bound ≤ 31)%nat →
    fst (fst (digit_loop bound v n tmp)) = 0.
Proof.
  induction bound as [| bound IH]; intros v n tmp Hv Hn; cbn [digit_loop].
  - cbn in *. lia.
  - destruct (Z.ltb_spec 0 v) as [Hpos | Hzero].
    + assert ((n <? 31)%nat = true) as -> by (apply Nat.ltb_lt; lia).
      cbn [andb]. apply IH; [| lia].
      rewrite Z.quot_div_nonneg by lia. split; [apply Z.div_pos; lia |].
      apply Z.div_lt_upper_bound; [lia |].
      rewrite <- Z.pow_succ_r by lia. rewrite <- Nat2Z.inj_succ. lia.
    + cbn. lia.
Qed.

Lemma stored_digits_length (bound : nat) :
  ∀ (v : Z) (n k : nat),
    v < 10 ^ Z.of_nat k → (length (stored_digits bound v n) ≤ k)%nat.
Proof.
  induction bound as [| bound IH]; intros v n k Hv; cbn [stored_digits].
  - cbn. lia.
  - destruct (Z.ltb_spec 0 v) as [Hpos | Hzero]; [| cbn; lia].
    destruct (n <? 31)%nat; [| cbn; lia]. cbn [andb length].
    destruct k as [| k]; [cbn in Hv; lia |].
    apply le_n_S, IH.
    rewrite Z.quot_div_nonneg by lia.
    apply Z.div_lt_upper_bound; [lia |].
    rewrite <- Z.pow_succ_r by lia. rewrite <- Nat2Z.inj_succ. lia.
Qed.

Lemma stored_digits_bounded (bound : nat) :
  ∀ (v : Z) (n : nat), (length (stored_digits bound v n) ≤ bound)%nat.
Proof.
  induction bound as [| bound IH]; intros v n; cbn [stored_digits];
    [cbn; lia |].
  destruct ((0 <? v) && (n <? 31)%nat); cbn [length]; [| lia].
  apply le_n_S, IH.
Qed.

Lemma stored_digits_are_digits (bound : nat) :
  ∀ (v : Z) (n : nat),
    Forall (λ c, is_digit c = true) (stored_digits bound v n).
Proof.
  induction bound as [| bound IH]; intros v n; cbn [stored_digits];
    [constructor |].
  destruct (Z.ltb_spec 0 v) as [Hpos | Hzero]; [| constructor].
  destruct (n <? 31)%nat; [| constructor]. cbn [andb].
  constructor; [| apply IH].
  unfold is_digit. rewrite digit_char_code by exact Hpos.
  pose proof (Z.mod_pos_bound v 10 ltac:(lia)).
  apply andb_true_intro. split; apply Z.leb_le; lia.
Qed.

(** The digit loop stays inside [char tmp[32]]: for every value, and
    whatever the buffer holds, it ends with a count [n] of at most 31, has
    changed no byte at index [n] or above, and has kept the buffer's
    length; for a value of [int64_t] the count is at most 19, and for a
    non-negative one the loop has run until [v] is 0, so the cap of 31 is
    never what stops it. *)
Theorem digit_loop_stays_in_buffer (v : Z) (tmp : list ascii) :
  let '(v', n, tmp') := digit_loop 31 v 0 tmp in
  (n ≤ 31)%nat
  ∧ length tmp' = length tmp
  ∧ (∀ i, (n ≤ i)%nat → tmp' !! i = tmp !! i)
  ∧ (is_int64 v → (n ≤ 19)%nat ∧ (0 <= v → v' = 0)).
Proof.
  pose proof (digit_loop_writes_below_count 31 v 0 tmp) as Hw.
  pose proof (digit_loop_count 31 v 0 tmp) as Hn.
  pose proof (digit_loop_takes_all_digits 31 v 0 tmp) as Hv.
  destruct (digit_loop 31 v 0 tmp) as [[v' n] tmp'].
  cbn [fst snd] in Hn, Hv. destruct Hw as (_ & Hcap & Hlen & Hsame).
  split; [lia |]. split; [exact Hlen |]. split.
  - intros i Hi. apply Hsame. lia.
  - intros [Hlo Hhi]. split.
    + rewrite Hn. cbn [Nat.add]. apply stored_digits_length.
      unfold INT64_MAX in Hhi.
      eapply Z.le_lt_trans; [exact Hhi | reflexivity].
    + intros Hpos. apply Hv; [| lia]. split; [exact Hpos |].
      unfold INT64_MAX in Hhi.
      eapply Z.le_lt_trans; [exact Hhi | reflexivity].
Qed.

Lemma digit_loop_stays_in_buffer_witness :
  let '(v', n, _) := digit_loop 31 INT64_MAX 0 scratch in
  (n ≤ 19)%nat ∧ v' = 0.
Proof.
  assert (is_int64 INT64_MAX) as Hint
    by (unfold is_int64, INT64_MIN, INT64_MAX; lia).
  assert (0 <= INT64_MAX) as Hpos by (unfold INT64_MAX; lia).
  pose proof (digit_loop_stays_in_buffer INT64_MAX scratch) as H.
  destruct (digit_loop 31 INT64_MAX 0 scratch) as [[v' n] tmp'].
  destruct H as (_ & _ & _ & H). destruct (H Hint) as [Hn Hv].
  exact (conj Hn (Hv Hpos)).
Defined.

Lemma vga_write_int_int_chars (tmp0 : list ascii) (v : Z) (st : vga_state) :
  length tmp0 = 32%nat → vga_write_int tmp0 v st = emit (int_chars v) st.
Proof.
  intros Hlen. unfold vga_write_int, int_chars.
  destruct (v =? 0); [reflexivity |].
  destruct (v <? 0).
  - rewrite emit_cons. apply digit_loops_emit, Hlen.
  - apply digit_loops_emit, Hlen.
Qed.

(** [vga_write_int] never depends on what the uninitialised buffer held:
    for every value of [int64_t] other than [INT64_MIN] and every two
    32-byte contents the resulting state is the same, namely [putc] over
    [int_chars v]. *)
Theorem vga_write_int_ignores_buffer_contents
    (tmp0 tmp1 : list ascii) (v : Z) (st : vga_state) :
  INT64_MIN < v <= INT64_MAX →
  length tmp0 = 32%nat → length tmp1 = 32%nat →
  vga_write_int tmp0 v st = vga_write_int tmp1 v st
  ∧ vga_write_int tmp0 v st = emit (int_chars v) st.
Proof.
  intros _ H0 H1. rewrite !vga_write_int_int_chars by assumption.
  split; reflexivity.
Qed.

Lemma vga_write_int_ignores_buffer_contents_witness :
  vga_write_int scratch (-905) blank
  = vga_write_int (replicate 32 "9"%char) (-905) blank.
Proof.
  assert (INT64_MIN < -905 <= INT64_MAX) as Hv
    by (unfold INT64_MIN, INT64_MAX; lia).
  exact (proj1 (vga_write_int_ignores_buffer_contents
                  scratch (replicate 32 "9"%char) (-905) blank
                  Hv eq_refl eq_refl)).
Defined.

Lemma int_chars_any (v : Z) :
  (1 ≤ length (int_chars v) ≤ 32)%nat
  ∧ Forall (λ c, c = "-"%char ∨ is_digit c = true) (int_chars v).
Proof.
  unfold int_chars. destruct (Z.eqb_spec v 0) as [-> | Hnz].
  { split; [cbn; lia |]. constructor; [right; reflexivity | constructor]. }
  destruct (Z.ltb_spec v 0) as [Hneg | Hpos].
  - pose proof (stored_digits_bounded 31 (wrap64 (- v)) 0) as Hb.
    split; [cbn [length]; rewrite length_rev; lia |].
    constructor; [left; reflexivity |].
    apply Forall_rev.
    eapply Forall_impl; [apply stored_digits_are_digits |]. auto.
  - pose proof (stored_digits_bounded 31 v 0) as Hb.
    assert (stored_digits 31 v 0 ≠ []) as Hne.
    { cbn [stored_digits].
      destruct (Z.ltb_spec 0 v); [cbn; discriminate | lia]. }
    split.
    + rewrite length_rev. destruct (stored_digits 31 v 0); [done |].
      cbn [length] in *. lia.
    + apply Forall_rev.
      eapply Forall_impl; [apply stored_digits_are_digits |]. auto.
Qed.

Lemma sign_or_digit_plain (c : ascii) :
  c = "-"%char ∨ is_digit c = true → c ≠ newline ∧ c ≠ NUL.
Proof.
  intros [-> | Hd]; [split; discriminate |].
  split; intros ->; discriminate Hd.
Qed.

(** For a value of [int64_t] other than [INT64_MIN], [vga_write_int] is
    [putc] over at least 1 and at most 20 characters, each a minus sign or
    a decimal digit, so that it never writes a newline or a zero byte. *)
Theorem vga_write_int_writes_1_to_20_plain_characters
    (tmp0 : list ascii) (v : Z) :
  INT64_MIN < v <= INT64_MAX → length tmp0 = 32%nat →
  (∀ st, vga_write_int tmp0 v st = emit (int_chars v) st)
  ∧ (1 ≤ length (int_chars v) ≤ 20)%nat
  ∧ Forall (λ c, (c = "-"%char ∨ is_digit c = true)
                 ∧ c ≠ newline ∧ c ≠ NUL) (int_chars v).
Proof.
  intros [Hlo Hhi] Hlen.
  destruct (int_chars_any v) as [[Hmin _] Hall].
  split; [intros st; apply vga_write_int_int_chars, Hlen |].
  split; [split; [exact Hmin |] |].
  - unfold int_chars. destruct (v =? 0); [cbn; lia |].
    assert (∀ w, w <= INT64_MAX → (length (stored_digits 31 w 0) ≤ 19)%nat)
      as Hdig.
    { intros w Hw. apply stored_digits_length. unfold INT64_MAX in Hw.
      eapply Z.le_lt_trans; [exact Hw | reflexivity]. }
    destruct (Z.ltb_spec v 0) as [Hneg | Hpos].
    + cbn [length]. rewrite length_rev. apply le_n_S, Hdig.
      rewrite wrap64_id; unfold is_int64, INT64_MIN, INT64_MAX in *; lia.
    + rewrite length_rev. specialize (Hdig v Hhi). lia.
  - eapply Forall_impl; [exact Hall |].
    intros c Hc. split; [exact Hc | apply sign_or_digit_plain, Hc].
Qed.

Lemma vga_write_int_writes_1_to_20_plain_characters_witness :
  (1 ≤ length (int_chars (INT64_MIN + 1)) ≤ 20)%nat
  ∧ (1 ≤ length (int_chars INT64_MAX) ≤ 20)%nat.
Proof.
  assert (INT64_MIN < INT64_MIN + 1 <= INT64_MAX) as Hlow
    by (unfold INT64_MIN, INT64_MAX; lia).
  assert (INT64_MIN < INT64_MAX <= INT64_MAX) as Hhigh
    by (unfold INT64_MIN, INT64_MAX; lia).
  split.
  - exact (proj1 (proj2 (vga_write_int_writes_1_to_20_plain_characters
                           scratch (INT64_MIN + 1) Hlow eq_refl))).
  - exact (proj1 (proj2 (vga_write_int_writes_1_to_20_plain_characters
                           scratch INT64_MAX Hhigh eq_refl))).
Defined.

(** ** Strings and calls as runs of characters *)

Lemma until_NUL_app_plain (s1 s2 : list ascii) :
  Forall (λ c, c ≠ NUL) s1 → until_NUL (s1 ++ s2) = s1 ++ until_NUL s2.
Proof.
  induction 1 as [| c s1 Hc _ IH]; [reflexivity |].
  cbn. rewrite (ascii_eqb_false _ _ Hc). f_equal. exact IH.
Qed.

Lemma until_NUL_app_cut (s1 s2 : list ascii) :
  In NUL s1 → until_NUL (s1 ++ s2) = until_NUL s1.
Proof.
  induction s1 as [| c s1 IH]; intros Hin; [destruct Hin |].
  cbn. destruct (Ascii.eqb_spec c NUL) as [_ | Hne]; [reflexivity |].
  f_equal. apply IH. destruct Hin as [Heq | Hin]; [congruence | exact Hin].
Qed.

(** Writing a string in two pieces: if the first piece has no zero byte,
    writing the concatenation is writing the first and then the second
    piece; if it has one, the second piece is never looked at. *)
Theorem vga_write_string_app (s1 s2 : list ascii) (st : vga_state) :
  (Forall (λ c, c ≠ NUL) s1 →
   vga_write_string (s1 ++ s2) st
   = vga_write_string s2 (vga_write_string s1 st))
  ∧ (In NUL s1 → vga_write_string (s1 ++ s2) st = vga_write_string s1 st).
Proof.
  split; intros H1; rewrite !vga_write_string_emit.
  - rewrite (until_NUL_app_plain s1 s2 H1), (until_NUL_whole s1 H1).
    apply emit_app.
  - rewrite until_NUL_app_cut by exact H1. reflexivity.
Qed.

Lemma vga_write_string_app_witness :
  vga_write_string ([ "a"; "b" ]%char ++ [ "c" ]%char) blank
  = vga_write_string [ "c" ]%char (vga_write_string [ "a"; "b" ]%char blank)
  ∧ vga_write_string ([ "a"; NUL; "b" ]%char ++ [ "c" ]%char) blank
    = vga_write_string [ "a"; NUL; "b" ]%char blank.
Proof.
  assert (Forall (λ c, c ≠ NUL) [ "a"; "b" ]%char) as Hplain
    by (repeat constructor; discriminate).
  assert (In NUL [ "a"; NUL; "b" ]%char) as Hcut by (right; left; reflexivity).
  split.
  - exact (proj1 (vga_write_string_app
                    [ "a"; "b" ]%char [ "c" ]%char blank) Hplain).
  - exact (proj2 (vga_write_string_app
                    [ "a"; NUL; "b" ]%char [ "c" ]%char blank) Hcut).
Defined.

Lemma do_call_emit (o : console_call) (st : vga_state) :
  is_write o = true → do_call o st = emit (call_chars o) st.
Proof.
  destruct o as [| c | s | v tmp0]; cbn [is_write do_call call_chars].
  - discriminate.
  - reflexivity.
  - intros _. apply vga_write_string_emit.
  - intros Hlen. apply Nat.eqb_eq in Hlen.
    apply vga_write_int_int_chars, Hlen.
Qed.

Lemma run_emit (os : list console_call) :
  ∀ st, forallb is_write os = true →
        run os st = emit (concat (map call_chars os)) st.
Proof.
  induction os as [| o os IH]; intros st Hos; [reflexivity |].
  cbn [forallb] in Hos. apply andb_prop in Hos as [Ho Hos].
  change (run (o :: os) st) with (run os (do_call o st)).
  cbn [map concat]. rewrite emit_app, (do_call_emit o st Ho). apply IH, Hos.
Qed.

Lemma is_defined_write_is_write (os : list console_call) :
  forallb is_defined_write os = true → forallb is_write os = true.
Proof.
  induction os as [| o os IH]; intros Hos; [reflexivity |].
  cbn [forallb] in *. apply andb_prop in Hos as [Ho Hos].
  rewrite (IH Hos), andb_true_r.
  destruct o as [| c | s | v tmp0]; cbn [is_defined_write is_write] in *;
    try exact Ho.
  apply andb_prop in Ho as [Ho _]. apply andb_prop in Ho as [Ho _]. exact Ho.
Qed.

(** Calls compose into one run of characters: after [vga_init], a
    sequence of writing calls (integers of [int64_t] other than
    [INT64_MIN], with their 32-byte buffer) is [putc] over the characters
    of the calls in order; and if these are at most [INT_MAX] characters,
    the row is non-negative afterwards and the cell that the next [putc]
    would store into lies inside the surface. *)
Theorem run_of_writes_is_emit (os : list console_call) (st : vga_state) :
  forallb is_defined_write os = true →
  run (Initialize :: os) st = emit (concat (map call_chars os)) (vga_init st)
  ∧ (Z.of_nat (length (concat (map call_chars os))) <= INT_MAX →
     0 <= row (run (Initialize :: os) st)
     ∧ 0 <= putc_index (run (Initialize :: os) st) < WIDTH * HEIGHT).
Proof.
  intros Hos. apply is_defined_write_is_write in Hos.
  assert (run (Initialize :: os) st
          = emit (concat (map call_chars os)) (vga_init st)) as Heq
    by (apply (run_emit os (vga_init st) Hos)).
  split; [exact Heq |]. intros Hlen. rewrite Heq.
  destruct (emit_row_bound (concat (map call_chars os)) (vga_init st))
    as [Hr Hok].
  - cbn. lia.
  - apply vga_init_cursor_ok.
  - cbn [row vga_init]. lia.
  - split; [lia |].
    apply putc_index_in_bounds; [lia | exact (proj2 Hok)].
Qed.

Lemma run_of_writes_is_emit_witness :
  run [ Initialize; WriteString (cstr "n = "); WriteInteger (-12) scratch ]
      blank
  = emit (cstr "n = -12") (vga_init blank).
Proof.
  exact (proj1 (run_of_writes_is_emit
                  [ WriteString (cstr "n = "); WriteInteger (-12) scratch ]
                  blank eq_refl)).
Defined.

(** ** The cell value *)

(** A cell value keeps the character in its low byte and the attribute
    0x0F in its high byte, within 16 bits: the character written can be
    read back from the cell, and different characters give different
    cells. *)
Theorem glyph_low_byte_is_character (c c' : ascii) :
  0 <= glyph c < 2 ^ 16
  ∧ glyph c mod 256 = uint8_of_char c
  ∧ glyph c / 256 = color
  ∧ char_of_Z (glyph c) = c
  ∧ (glyph c = glyph c' → c = c').
Proof.
  assert (∀ x, char_of_Z (glyph x) = x) as Hback
    by (intros [[] [] [] [] [] [] [] []]; reflexivity).
  split; [| split; [| split; [| split]]].
  - destruct c as [[] [] [] [] [] [] [] []]; vm_compute; split; congruence.
  - destruct c as [[] [] [] [] [] [] [] []]; reflexivity.
  - destruct c as [[] [] [] [] [] [] [] []]; reflexivity.
  - apply Hback.
  - intros Heq. rewrite <- (Hback c), <- (Hback c'), Heq. reflexivity.
Qed.

Lemma glyph_low_byte_is_character_witness :
  glyph "A" = glyph "A" ∧ char_of_Z (glyph "A") = "A"%char
  ∧ "A"%char = "A"%char.
Proof.
  destruct (glyph_low_byte_is_character "A"%char "A"%char)
    as (_ & _ & _ & Hback & Hinj).
  exact (conj eq_refl (conj Hback (Hinj eq_refl))).
Defined.

(** ** Lines of text *)

Lemma emit_within_row (cs : list ascii) :
  ∀ st, Forall (λ c, c ≠ newline) cs →
        0 <= row st < HEIGHT → 0 <= col st →
        col st + Z.of_nat (length cs) < WIDTH →
        row (emit cs st) = row st
        ∧ col (emit cs st) = col st + Z.of_nat (length cs).
Proof.
  induction cs as [| c cs IH]; intros st Hcs Hrow Hcol Hlen.
  - cbn [length Z.of_nat]. unfold emit. cbn [fold_left]. lia.
  - apply Forall_cons in Hcs as [Hc Hcs]. cbn [length] in Hlen.
    rewrite emit_cons.
    assert (putc c st
            = {| row := row st; col := col st + 1;
                 VGA := VGA (putc c st) |}) as Hput.
    { rewrite (putc_other_eq c st) by (first [exact Hc | lia]). cbn [VGA].
      unfold wrap_row, WIDTH, HEIGHT in *.
      destruct (Z.eqb_spec (col st + 1) 80); [lia |].
      destruct (Z.leb_spec 25 (row st)); [lia | reflexivity]. }
    destruct (IH (putc c st) Hcs) as [Hr Hc'];
      try (rewrite Hput; cbn [row col]; lia).
    rewrite Hr, Hc', Hput. cbn [row col length]. lia.
Qed.

Lemma emit_short_line (l : list ascii) (st : vga_state) :
  short_line l → 0 <= row st < HEIGHT → col st = 0 →
  row (emit (l ++ [ newline ]) st) = row st + 1
  ∧ col (emit (l ++ [ newline ]) st) = 0
  ∧ (∀ i c, l !! i = Some c →
            VGA (emit (l ++ [ newline ]) st)
              !! (row st * WIDTH + Z.of_nat i) = Some (glyph c))
  ∧ (∀ k, ¬ (row st * WIDTH <= k < row st * WIDTH + Z.of_nat (length l)) →
          VGA (emit (l ++ [ newline ]) st) !! k = VGA st !! k).
Proof.
  intros [Hplain Hlen] Hrow Hcol.
  assert (cursor_ok st) as Hok.
  { split; unfold is_int, INT_MIN, INT_MAX, WIDTH, HEIGHT in *; lia. }
  assert (putc_index st = row st * WIDTH) as Hidx.
  { unfold putc_index, wrap_row.
    destruct (Z.leb_spec HEIGHT (row st)); [lia |].
    rewrite cell_index_exact; unfold WIDTH in *; lia. }
  destruct (emit_within_row l st Hplain Hrow ltac:(lia) ltac:(lia))
    as [Hr Hc].
  rewrite emit_app. unfold emit at 1 3 5 7. cbn [fold_left].
  rewrite putc_newline_eq. cbn [row col VGA].
  split; [| split; [reflexivity | split]].
  - rewrite Hr. apply wrap32_id.
    unfold is_int, INT_MIN, INT_MAX, HEIGHT in *. lia.
  - intros i c Hi.
    pose proof (lookup_lt_Some _ _ _ Hi) as Hlt.
    rewrite <- (emit_text_cells l st i c Hplain ltac:(lia) Hok
                  ltac:(unfold WIDTH, HEIGHT in *; lia) Hi).
    f_equal. rewrite Hidx. rewrite Z.mod_small; [reflexivity |].
    unfold WIDTH, HEIGHT in *. lia.
  - intros k Hk.
    apply emit_text_frame; [exact Hplain | lia | exact Hok |].
    intros j Hj. rewrite Hidx.
    rewrite Z.mod_small by (unfold WIDTH, HEIGHT in *; lia). lia.
Qed.

Lemma emit_lines (ls : list (list ascii)) (st : vga_state) :
  Forall short_line ls → col st = 0 → 0 <= row st →
  row st + Z.of_nat (length ls) <= HEIGHT →
  row (emit (lines_text ls) st) = row st + Z.of_nat (length ls)
  ∧ col (emit (lines_text ls) st) = 0
  ∧ (∀ j l i c, ls !! j = Some l → l !! i = Some c →
                VGA (emit (lines_text ls) st)
                  !! ((row st + Z.of_nat j) * WIDTH + Z.of_nat i)
                = Some (glyph c))
  ∧ (∀ k, ¬ (row st * WIDTH <= k
              < (row st + Z.of_nat (length ls)) * WIDTH) →
          VGA (emit (lines_text ls) st) !! k = VGA st !! k).
Proof.
  revert st. induction ls as [| l ls IH]; intros st Hls Hcol Hrow Hfit.
  - unfold lines_text, emit. cbn. repeat split; try lia.
    intros j l i c Hj. discriminate Hj.
  - apply Forall_cons in Hls as [Hl Hls]. cbn [length] in Hfit.
    change (lines_text (l :: ls)) with ((l ++ [ newline ]) ++ lines_text ls).
    rewrite emit_app.
    destruct (emit_short_line l st Hl ltac:(lia) Hcol)
      as (Hr1 & Hc1 & Hcells1 & Hframe1).
    set (st1 := emit (l ++ [ newline ]) st) in *.
    destruct (IH st1 Hls Hc1 ltac:(lia) ltac:(lia))
      as (Hr & Hc & Hcells & Hframe).
    pose proof (proj2 Hl) as Hshort.
    split; [cbn [length]; lia |]. split; [exact Hc |]. split.
    + intros [| j] l' i c Hj Hi.
      * injection Hj as <-.
        pose proof (lookup_lt_Some _ _ _ Hi) as Hlt.
        rewrite Hframe by (unfold WIDTH in *; lia).
        replace (row st + Z.of_nat 0) with (row st) by lia.
        apply Hcells1, Hi.
      * cbn in Hj.
        replace (row st + Z.of_nat (S j)) with (row st1 + Z.of_nat j) by lia.
        apply (Hcells j l' i c Hj Hi).
    + intros k Hk. cbn [length] in Hk.
      rewrite Hframe by (unfold WIDTH in *; lia).
      apply Hframe1. unfold WIDTH in *. lia.
Qed.

(** Lines that fit: from column 0 of a row inside the surface, writing
    lines (each without newline and shorter than a row, each followed by a
    newline) that do not go past the last row puts line [j] into row
    [row + j] from column 0 on, leaves the cursor at column 0 of the row
    after the last line, and changes no cell of any other row. *)
Theorem emit_lines_row_by_row (ls : list (list ascii)) (st : vga_state) :
  Forall short_line ls → col st = 0 → 0 <= row st →
  row st + Z.of_nat (length ls) <= HEIGHT →
  row (emit (lines_text ls) st) = row st + Z.of_nat (length ls)
  ∧ col (emit (lines_text ls) st) = 0
  ∧ (∀ j l i c, ls !! j = Some l → l !! i = Some c →
                VGA (emit (lines_text ls) st)
                  !! ((row st + Z.of_nat j) * WIDTH + Z.of_nat i)
                = Some (glyph c))
  ∧ (∀ k, ¬ (row st * WIDTH <= k
              < (row st + Z.of_nat (length ls)) * WIDTH) →
          VGA (emit (lines_text ls) st) !! k = VGA st !! k).
Proof. exact (emit_lines ls st). Qed.

Lemma emit_lines_row_by_row_witness :
  row (emit (lines_text [ cstr "one"; cstr "two" ]) (vga_init blank)) = 2
  ∧ VGA (emit (lines_text [ cstr "one"; cstr "two" ]) (vga_init blank)) !! 81
    = Some (glyph "w").
Proof.
  assert (Forall short_line [ cstr "one"; cstr "two" ]) as Hls.
  { repeat constructor; try discriminate; unfold WIDTH; cbn; lia. }
  assert (row (vga_init blank)
          + Z.of_nat (length [ cstr "one"; cstr "two" ]) <= HEIGHT) as Hfit
    by (unfold HEIGHT; cbn; lia).
  assert (0 <= row (vga_init blank)) as Hrow by (cbn; lia).
  destruct (emit_lines_row_by_row [ cstr "one"; cstr "two" ]
              (vga_init blank) Hls eq_refl Hrow Hfit)
    as (Hr & _ & Hcells & _).
  split; [exact Hr |].
  exact (Hcells 1%nat (cstr "two") 1%nat "w"%char eq_refl eq_refl).
Defined.

(** ** The screen that kmain leaves *)

Section BootScreen.
Context `{GenLogic}.
Variable tmp0 : list ascii.

Ltac boot_steps :=
  cbn [Kernel.krun Kernel.kstep Kernel.console Kernel.kentry Kernel.kputs
       Kernel.pc Kernel.con Kernel.b Kernel.m Kernel.z Kernel.mx Kernel.d
       Nat.add app map].

Lemma krun_boot (st : vga_state) (b0 : list ascii) (m0 z0 mx0 d0 : Z) :
  ∃ k, Kernel.krun tmp0 12 (Kernel.kentry st b0 m0 z0 mx0 d0)
       = Some (Kernel.boot_events tmp0, k)
       ∧ Kernel.pc k = Kernel.L23
       ∧ Kernel.con k
         = run (Kernel.console_calls (Kernel.boot_events tmp0)) st.
Proof.
  boot_steps. eexists. split; [reflexivity |]. split; reflexivity.
Qed.

Lemma label_int_short (label : string) (v : Z) :
  Forall (λ c, c ≠ newline) (cstr label) →
  Z.of_nat (length (cstr label)) <= 13 →
  short_line (cstr label ++ int_chars v).
Proof.
  intros Hlabel Hlen. destruct (int_chars_any v) as [[_ Hmax] Hall]. split.
  - apply Forall_app. split; [exact Hlabel |].
    eapply Forall_impl; [exact Hall |].
    intros c Hc. apply sign_or_digit_plain, Hc.
  - rewrite length_app. unfold WIDTH. lia.
Qed.

Lemma boot_lines_short :
  Forall (λ c, c ≠ newline) (until_NUL banner) →
  Z.of_nat (length (until_NUL banner)) < 72 →
  Forall short_line boot_lines.
Proof.
  intros Hplain Hlen. unfold boot_lines.
  assert (∀ s, forallb (λ c, negb (Ascii.eqb c newline)) (cstr s) = true →
               Forall (λ c, c ≠ newline) (cstr s)) as Hlit.
  { intros s Hs. apply Forall_forall. intros c Hc.
    rewrite forallb_forall in Hs. apply list_elem_of_In in Hc.
    specialize (Hs c Hc).
    apply negb_true_iff, Ascii.eqb_neq in Hs. exact Hs. }
  repeat apply Forall_cons_2; [| | | | | | constructor].
  - split; [apply Hlit; reflexivity | unfold WIDTH; cbn; lia].
  - split.
    + apply Forall_app. split; [apply Hlit; reflexivity | exact Hplain].
    + rewrite length_app. unfold WIDTH.
      change (length (cstr "banner: ")) with 8%nat. lia.
  - apply label_int_short; [apply Hlit; reflexivity | cbn; lia].
  - apply label_int_short; [apply Hlit; reflexivity | cbn; lia].
  - apply label_int_short; [apply Hlit; reflexivity | cbn; lia].
  - apply label_int_short; [apply Hlit; reflexivity | cbn; lia].
Qed.

Lemma boot_console_is_boot_lines (st : vga_state) :
  length tmp0 = 32%nat →
  run (Kernel.console_calls (Kernel.boot_events tmp0)) st
  = emit (lines_text boot_lines) (vga_init st).
Proof.
  intros Hlen.
  change (Kernel.console_calls (Kernel.boot_events tmp0))
    with (Initialize
          :: [ WriteString (cstr "FUSE kernel online");
               WriteString [ newline ] ]
          ++ Kernel.labeled_string "banner: " banner
          ++ Kernel.labeled_integer tmp0 "meaning: " meaning
          ++ Kernel.labeled_integer tmp0 "add(20,22): " (add 20 22)
          ++ Kernel.labeled_integer tmp0 "max2(11,17): " (max2 11 17)
          ++ Kernel.labeled_integer tmp0 "demo_expr: " demo_expr).
  change (run (Initialize :: ?os) st) with (run os (vga_init st)).
  rewrite run_emit.
  - f_equal. unfold boot_lines, lines_text, Kernel.labeled_string,
      Kernel.labeled_integer.
    cbn [map concat app call_chars].
    change (until_NUL [ newline ]) with [ newline ].
    change (until_NUL (cstr "FUSE kernel online"))
      with (cstr "FUSE kernel online").
    change (until_NUL (cstr "banner: ")) with (cstr "banner: ").
    change (until_NUL (cstr "meaning: ")) with (cstr "meaning: ").
    change (until_NUL (cstr "add(20,22): ")) with (cstr "add(20,22): ").
    change (until_NUL (cstr "max2(11,17): ")) with (cstr "max2(11,17): ").
    change (until_NUL (cstr "demo_expr: ")) with (cstr "demo_expr: ").
    rewrite <- !app_assoc. rewrite ?app_nil_r. reflexivity.
  - unfold Kernel.labeled_string, Kernel.labeled_integer.
    cbn [app forallb is_write]. rewrite Hlen. reflexivity.
Qed.

(** The boot screen: if the banner text has no newline and fewer than 72
    characters, then from any console state [kmain] reaches its [hlt] loop
    with the six lines "FUSE kernel online", "banner: ...",
    "meaning: ...", "add(20,22): ...", "max2(11,17): ...",
    "demo_expr: ..." in rows 0 to 5 from column 0 on, whatever integers
    the logic returns, with the cursor at row 6, column 0, and with every
    cell outside rows 0 to 5 as it was on entry. *)
Theorem kmain_leaves_six_lines
    (st : vga_state) (b0 : list ascii) (m0 z0 mx0 d0 : Z) :
  length tmp0 = 32%nat →
  Forall (λ c, c ≠ newline) (until_NUL banner) →
  Z.of_nat (length (until_NUL banner)) < 72 →
  ∃ evs k,
    Kernel.krun tmp0 12 (Kernel.kentry st b0 m0 z0 mx0 d0) = Some (evs, k)
    ∧ Kernel.pc k = Kernel.L23
    ∧ row (Kernel.con k) = 6 ∧ col (Kernel.con k) = 0
    ∧ (∀ j l i c, boot_lines !! j = Some l → l !! i = Some c →
                  VGA (Kernel.con k) !! (Z.of_nat j * WIDTH + Z.of_nat i)
                  = Some (glyph c))
    ∧ (∀ o, ¬ (0 <= o < 6 * WIDTH) → VGA (Kernel.con k) !! o = VGA st !! o).
Proof.
  intros Hlen Hplain Hshort.
  destruct (krun_boot st b0 m0 z0 mx0 d0) as (k & Hrun & Hpc & Hcon).
  exists (Kernel.boot_events tmp0), k.
  split; [exact Hrun |]. split; [exact Hpc |].
  rewrite Hcon, (boot_console_is_boot_lines st Hlen).
  destruct (emit_lines boot_lines (vga_init st)
              (boot_lines_short Hplain Hshort) eq_refl)
    as (Hr & Hc & Hcells & Hframe).
  - cbn. lia.
  - unfold HEIGHT. cbn. lia.
  - split; [exact Hr |]. split; [exact Hc |]. split.
    + intros j l i c Hj Hi. apply (Hcells j l i c Hj Hi).
    + intros o Ho. apply (Hframe o). exact Ho.
Qed.

End BootScreen.

Lemma kmain_leaves_six_lines_witness :
  ∃ evs k,
    @Kernel.krun sample_logic scratch 12 (Kernel.kentry blank [] 0 0 0 0)
    = Some (evs, k)
    ∧ row (Kernel.con k) = 6 ∧ col (Kernel.con k) = 0.
Proof.
  assert (Forall (λ c, c ≠ newline) (until_NUL (@banner sample_logic)))
    as Hplain by (repeat constructor; discriminate).
  assert (Z.of_nat (length (until_NUL (@banner sample_logic))) < 72)
    as Hshort by (cbn; lia).
  destruct (@kmain_leaves_six_lines sample_logic scratch blank [] 0 0 0 0
              eq_refl Hplain Hshort)
    as (evs & k & Hrun & _ & Hr & Hc & _).
  exists evs, k. split; [exact Hrun |]. split; [exact Hr | exact Hc].
Defined.
